(** * Story editor and story preview: content list and slide navigation

    A shallow embedding of the stateful logic of the story components:

    - [StoryEditor]: the content list of the editor ([handleAddText],
      [handleAddImage], [removeContentItem]);
    - [StoryPreviewModal]: the scrolling preview ([handleScroll],
      [handleTouchStart], [handleTouchMove], [handleTouchEnd],
      [handleKeyDown]);
    - [BackupPreviewModal]: the preview of [story-editor.backup.tsx]
      ([nextSlide], [prevSlide], the slide indicator), with its timers;
    - [ContentActions], [StoryForm]: the editor's buttons, item labels,
      tags, saving, publishing and opening the preview;
    - [PreviewSession], [BackupSession]: whole gestures, progress bars and
      sequences of arrow clicks.

    React state is a record; a handler is a function of the values its
    render captured.  Where the source passes an updater to a state
    setter ([setStoryContent(prev => ...)]), the handler is a function of
    the captured render and of [prev], the state the update is applied
    to.  A string is kept as the UTF-8 bytes of the JavaScript string and
    counted in UTF-16 code units.  Pixel quantities are rationals and
    indices integers; the difference of two touch coordinates is the
    binary64 one. *)

From Stdlib Require Import Ascii String ZArith QArith Qround Qabs Lia Lqa.
From stdpp Require Import base list strings.

Local Open Scope Z_scope.

(** ** The content list of the editor *)

Module StoryEditor.

(** [type: 'text' | 'image'] *)
Inductive ItemType : Set := text | image.

(** [StoryContentItem]: [{ id: string; type; content: string; order: number }]. *)
Record StoryContentItem : Set := mkItem {
  id : string;
  type : ItemType;
  content : string;
  order : Z;
}.

(** The part of the editor's state the content handlers read and write. *)
Record Editor : Set := mkEditor {
  storyContent : list StoryContentItem;
  currentText : string;
}.

(** Strings are kept as the UTF-8 bytes of the JavaScript string.

    [String.prototype.trim] strips the WhiteSpace and LineTerminator code
    points from both ends.  In UTF-8 they are one, two or three bytes long:
    U+0009..U+000D and U+0020; U+00A0; U+1680, U+2000..U+200A, U+2028,
    U+2029, U+202F, U+205F, U+3000 and U+FEFF. *)
Definition isSpace1 (a : ascii) : bool :=
  let x := nat_of_ascii a in
  ((9 <=? x)%nat && (x <=? 13)%nat) || (x =? 32)%nat.

Definition isSpace2 (a b : ascii) : bool :=
  (nat_of_ascii a =? 194)%nat && (nat_of_ascii b =? 160)%nat.

Definition isSpace3 (a b c : ascii) : bool :=
  let x := nat_of_ascii a in
  let y := nat_of_ascii b in
  let z := nat_of_ascii c in
  ((x =? 225)%nat && (y =? 154)%nat && (z =? 128)%nat)
  || ((x =? 226)%nat && (y =? 128)%nat
      && (((128 <=? z)%nat && (z <=? 138)%nat)
          || (z =? 168)%nat || (z =? 169)%nat || (z =? 175)%nat))
  || ((x =? 226)%nat && (y =? 129)%nat && (z =? 159)%nat)
  || ((x =? 227)%nat && (y =? 128)%nat && (z =? 128)%nat)
  || ((x =? 239)%nat && (y =? 187)%nat && (z =? 191)%nat).

(** Dropping from the front of a byte list every code point recognised by
    [w1], [w2], [w3] (one, two and three bytes) until one is not. *)
Fixpoint strip (w1 : ascii -> bool) (w2 : ascii -> ascii -> bool)
    (w3 : ascii -> ascii -> ascii -> bool) (l : list ascii) : list ascii :=
  match l with
  | [] => []
  | a :: l1 =>
      if w1 a then strip w1 w2 w3 l1
      else
        match l1 with
        | [] => l
        | b :: l2 =>
            if w2 a b then strip w1 w2 w3 l2
            else
              match l2 with
              | [] => l
              | c :: l3 => if w3 a b c then strip w1 w2 w3 l3 else l
              end
        end
  end.

(** No code point to drop at the front. *)
Definition settled (w1 : ascii -> bool) (w2 : ascii -> ascii -> bool)
    (w3 : ascii -> ascii -> ascii -> bool) (l : list ascii) : Prop :=
  match l with
  | [] => True
  | a :: l1 =>
      w1 a = false
      /\ match l1 with
         | [] => True
         | b :: l2 =>
             w2 a b = false
             /\ match l2 with
                | [] => True
                | c :: _ => w3 a b c = false
                end
         end
  end.

Definition trimStart (s : string) : string :=
  string_of_list_ascii
    (strip isSpace1 isSpace2 isSpace3 (list_ascii_of_string s)).

(** From the end the same code points are met last byte first. *)
Definition trimEnd (s : string) : string :=
  string_of_list_ascii
    (List.rev
       (strip isSpace1 (fun a b => isSpace2 b a) (fun a b c => isSpace3 c b a)
          (List.rev (list_ascii_of_string s)))).

Definition trim (s : string) : string := trimEnd (trimStart s).

(** JavaScript truthiness of a string: the empty string is falsy. *)
Definition truthy (s : string) : bool :=
  match s with EmptyString => false | _ => true end.

(** [handleAddText], created by the render [render] and run at time [now]
    ([Date.now().toString()]).  The new item's [order] is the length of the
    captured [storyContent]; the list it is appended to is [prev]. *)
Definition handleAddText (now : string) (render : Editor) : Editor -> Editor :=
  fun prev =>
    if negb (truthy (trim (currentText render))) then prev
    else
      let newContent :=
        {| id := now; type := text; content := trim (currentText render);
           order := Z.of_nat (length (storyContent render)) |} in
      {| storyContent := storyContent prev ++ [newContent];
         currentText := EmptyString |}.

(** [reader.onloadend] of [handleAddImage]: it runs when the file has been
    read, with the data URL [result], and still sees the [storyContent] of
    the render in which the file was chosen. *)
Definition onloadend (render : Editor) (now result : string) : Editor -> Editor :=
  fun prev =>
    let newContent :=
      {| id := now; type := image; content := result;
         order := Z.of_nat (length (storyContent render)) |} in
    {| storyContent := storyContent prev ++ [newContent];
       currentText := currentText prev |}.

(** [handleAddImage]: no file, no reader; otherwise the reader's callback. *)
Definition handleAddImage (render : Editor) (file : option string)
  : option (string -> Editor -> Editor) :=
  match file with
  | None => None
  | Some result => Some (fun now => onloadend render now result)
  end.

(** The inline "Add Text" button of the backup editor:
    [setStoryContent([...storyContent, newContent])], everything taken from
    the captured render. [answer] is what [prompt] returned. *)
Definition onClickAddText (now : string) (answer : option string) (render : Editor)
  : Editor -> Editor :=
  fun prev =>
    match answer with
    | Some t =>
        if truthy t then
          {| storyContent :=
               storyContent render ++
               [ {| id := now; type := text; content := t;
                    order := Z.of_nat (length (storyContent render)) |} ];
             currentText := currentText prev |}
        else prev
    | None => prev
    end.

(** [{ ...item, order: index }] *)
Definition withOrder (index : nat) (item : StoryContentItem) : StoryContentItem :=
  {| id := id item; type := type item; content := content item;
     order := Z.of_nat index |}.

(** [prev.filter(item => item.id !== id).map((item, index) => ({ ...item, order: index }))] *)
Definition removeFrom (i : string) (prev : list StoryContentItem) : list StoryContentItem :=
  imap withOrder (filter (fun item => id item <> i) prev).

Definition removeContentItem (i : string) : Editor -> Editor :=
  fun prev =>
    {| storyContent := removeFrom i (storyContent prev);
       currentText := currentText prev |}.

(** The renumbering invariant: [sequence[i].order == i] for every index. *)
Definition renumbered (l : list StoryContentItem) : Prop :=
  forall (i : nat) (x : StoryContentItem), l !! i = Some x -> order x = Z.of_nat i.

Definition renumberedb (l : list StoryContentItem) : bool :=
  forallb (fun ok : bool => ok) (imap (fun index x => order x =? Z.of_nat index) l).

(** An item without its [order]: what renumbering must leave alone. *)
Definition payload (x : StoryContentItem) : string * ItemType * string :=
  (id x, type x, content x).

(** A three-slide story, [Text("a"), Image(u1), Text("b")]. *)
Definition sample : list StoryContentItem :=
  [ {| id := "11"; type := text; content := "a"; order := 0 |};
    {| id := "12"; type := image; content := "u1"; order := 1 |};
    {| id := "13"; type := text; content := "b"; order := 2 |} ].

End StoryEditor.

(** ** Numbers of the preview: JavaScript operators on exact values *)

Module JS.

(** [x > y], [x >= y] and [x <= y] on pixel quantities. *)
Definition gt (x y : Q) : bool := negb (Qle_bool x y).
Definition ge (x y : Q) : bool := Qle_bool y x.
Definition le (x y : Q) : bool := Qle_bool x y.

(** [!x] on a number: true exactly at zero (there is no NaN here). *)
Definition falsy (x : Q) : bool := Qeq_bool x 0.

(** [Math.round]: the nearest integer, halves rounded up. *)
Definition Math_round (x : Q) : Z := Qfloor (x + (1 # 2)).

(** [Math.abs] *)
Definition Math_abs (x : Q) : Q := Qabs x.

(** [a % b] on integers: the sign follows the dividend. *)
Definition rem (a b : Z) : Z := Z.rem a b.

(** *** Numbers are binary64

    [number x] is the binary64 number nearest to [x], ties to the even
    mantissa: for [x] of binary exponent [e] (at least -1022) the
    multiple of [2^(e-52)] nearest to it.  Overflow is not modelled. *)
Definition pow2 (k : Z) : Q :=
  if 0 <=? k then inject_Z (2 ^ k) else / inject_Z (2 ^ (- k)).

(** The binary exponent of a positive rational: [2^e <= x < 2^(e+1)]. *)
Definition ilog2 (x : Q) : Z :=
  let e := Z.log2 (Qnum x) - Z.log2 (Zpos (Qden x)) in
  if Qle_bool (pow2 e) x then e else e - 1.

Definition roundEven (x : Q) : Z :=
  let f := Qfloor x in
  match Qcompare (x - inject_Z f) (1 # 2) with
  | Lt => f
  | Gt => f + 1
  | Eq => if Z.even f then f else f + 1
  end.

Definition nearest (x : Q) : Q :=
  let e := Z.max (ilog2 x) (-1022) in
  let q := pow2 (e - 52) in
  (inject_Z (roundEven (x / q)) * q)%Q.

Definition number (x : Q) : Q :=
  let y := Qred x in
  match Qnum y with
  | Z0 => 0%Q
  | Zpos _ => nearest y
  | Zneg _ => (- nearest (- y))%Q
  end.

Definition isDouble (x : Q) : bool := Qeq_bool (number x) x.

(** [x - y] on numbers: the binary64 number nearest to the difference.
    Every number the code holds is a binary64 number; on other rationals
    the model leaves the difference exact. *)
Definition minus (x y : Q) : Q :=
  if isDouble x && isDouble y then number (x - y) else (x - y)%Q.

(** *** Strings are counted in UTF-16 code units

    A string is kept as its UTF-8 bytes.  [units b] is the number of
    UTF-16 code units of the code point whose first byte is [b] (none for
    a continuation byte, two for the first byte of a four-byte sequence). *)
Definition units (b : ascii) : nat :=
  let x := nat_of_ascii b in
  if (x <? 128)%nat then 1%nat
  else if (x <? 192)%nat then 0%nat
  else if (x <? 240)%nat then 1%nat
  else 2%nat.

(** [s.length] *)
Fixpoint length (s : string) : nat :=
  match s with
  | EmptyString => 0%nat
  | String b s' => (units b + length s')%nat
  end.

(** The high surrogate of the code point that starts with [b0], as the
    three bytes a lone surrogate takes; [rest] holds its other bytes. *)
Definition highSurrogate (b0 : ascii) (rest : string) : string :=
  match rest with
  | String b1 (String b2 _) =>
      let h := ((nat_of_ascii b0 mod 8) * 256 + (nat_of_ascii b1 mod 64) * 4
                + (nat_of_ascii b2 mod 64) / 16 - 64)%nat in
      String (ascii_of_nat 237)
        (String (ascii_of_nat (160 + (h / 64) mod 16))
           (String (ascii_of_nat (128 + h mod 64)) EmptyString))
  | _ =>
      String (ascii_of_nat 239)
        (String (ascii_of_nat 191) (String (ascii_of_nat 189) EmptyString))
  end.

(** [s.substring(0, n)]: the first [n] code units; a count that ends
    between the two units of a code point keeps its high surrogate. *)
Fixpoint substring0 (n : nat) (s : string) : string :=
  match s with
  | EmptyString => EmptyString
  | String b s' =>
      match units b with
      | O => String b (substring0 n s')
      | S O =>
          match n with
          | O => EmptyString
          | S n' => String b (substring0 n' s')
          end
      | _ =>
          match n with
          | O => EmptyString
          | S O => highSurrogate b s'
          | S (S n') => String b (substring0 n' s')
          end
      end
  end.

End JS.

(** ** The scrolling preview *)

Module StoryPreviewModal.

Import StoryEditor.

(** The [useState] cells of the component. *)
Record State : Set := mkState {
  currentIndex : Z;
  isTransitioning : bool;
  touchStartY : Q;
  touchEndY : Q;
}.

(** What a handler reads from the browser: [containerRef.current]
    ([None] when the ref is null, otherwise the container's [scrollTop])
    and [window.innerHeight]. *)
Record Dom : Set := mkDom {
  containerRef : option Q;
  innerHeight : Z;
}.

Inductive ScrollBehavior : Set := auto | smooth.

(** What a handler asks of its surroundings, in call order. *)
Inductive Effect : Set :=
| scrollTo (top : Q) (behavior : ScrollBehavior)
| preventDefault
| onClose.

Definition initial : State :=
  {| currentIndex := 0; isTransitioning := false; touchStartY := 0%Q; touchEndY := 0%Q |}.

Definition setCurrentIndex (i : Z) (s : State) : State :=
  {| currentIndex := i; isTransitioning := isTransitioning s;
     touchStartY := touchStartY s; touchEndY := touchEndY s |}.

Definition setTouchStartY (y : Q) (s : State) : State :=
  {| currentIndex := currentIndex s; isTransitioning := isTransitioning s;
     touchStartY := y; touchEndY := touchEndY s |}.

Definition setTouchEndY (y : Q) (s : State) : State :=
  {| currentIndex := currentIndex s; isTransitioning := isTransitioning s;
     touchStartY := touchStartY s; touchEndY := y |}.

(** The component renders its dialog only when it is open, the list is not
    empty and [storyContent[currentIndex]] is defined; otherwise it returns
    null and [containerRef.current] stays null. *)
Definition renders (isOpen : bool) (storyContent : list StoryContentItem) (s : State) : bool :=
  isOpen
  && negb (Z.of_nat (length storyContent) =? 0)
  && (0 <=? currentIndex s) && (currentIndex s <? Z.of_nat (length storyContent)).

Definition mount (isOpen : bool) (storyContent : list StoryContentItem) (s : State)
    (scrollTop : Q) (height : Z) : Dom :=
  {| containerRef := if renders isOpen storyContent s then Some scrollTop else None;
     innerHeight := height |}.

(** [handleScroll].  The quotient [scrollPosition / windowHeight] is the
    exact one; the properties that depend on it are stated for a positive
    window height. *)
Definition handleScroll (storyContent : list StoryContentItem) (dom : Dom) (s : State)
  : State * list Effect :=
  match containerRef dom with
  | None => (s, [])
  | Some scrollPosition =>
      let windowHeight := inject_Z (innerHeight dom) in
      let currentActiveIndex := JS.Math_round (scrollPosition / windowHeight) in
      let len := Z.of_nat (length storyContent) in
      if JS.ge scrollPosition ((inject_Z len - (1 # 2)) * windowHeight) then
        (setCurrentIndex 0 s, [scrollTo 0 auto])
      else if JS.le scrollPosition 0 && (currentIndex s =? 0) then
        let newIndex := len - 1 in
        (setCurrentIndex newIndex s, [scrollTo (inject_Z newIndex * windowHeight) auto])
      else if negb (currentActiveIndex =? currentIndex s) then
        (setCurrentIndex currentActiveIndex s, [])
      else (s, [])
  end.

(** [handleTouchStart] and [handleTouchMove], at [e.targetTouches[0].clientY]. *)
Definition handleTouchStart (clientY : Q) (s : State) : State * list Effect :=
  (setTouchStartY clientY s, []).

Definition handleTouchMove (clientY : Q) (s : State) : State * list Effect :=
  (setTouchEndY clientY s, [preventDefault]).

(** [handleTouchEnd].  The guard is
    [!touchStartY || touchEndY === null || !containerRef.current];
    [touchEndY] is a number cell, so its test against null never holds. *)
Definition handleTouchEnd (storyContent : list StoryContentItem) (dom : Dom) (s : State)
  : State * list Effect :=
  if JS.falsy (touchStartY s) then (s, [])
  else
    match containerRef dom with
    | None => (s, [])
    | Some _ =>
        let diff := JS.minus (touchStartY s) (touchEndY s) in
        let threshold := 30%Q in
        let windowHeight := inject_Z (innerHeight dom) in
        let len := Z.of_nat (length storyContent) in
        let reset t := setTouchEndY 0 (setTouchStartY 0 t) in
        if JS.gt (JS.Math_abs diff) threshold then
          if JS.gt diff 0 then
            let nextIndex := JS.rem (currentIndex s + 1) len in
            (reset (setCurrentIndex nextIndex s),
             [scrollTo (inject_Z nextIndex * windowHeight) smooth])
          else
            let prevIndex := JS.rem (currentIndex s - 1 + len) len in
            (reset (setCurrentIndex prevIndex s),
             [scrollTo (inject_Z prevIndex * windowHeight) smooth])
        else
          (reset s, [scrollTo (inject_Z (currentIndex s) * windowHeight) smooth])
    end.

(** [handleKeyDown], on [e.key]. *)
Definition handleKeyDown (storyContent : list StoryContentItem) (dom : Dom)
    (key : string) (s : State) : State * list Effect :=
  match containerRef dom with
  | None => (s, [])
  | Some _ =>
      let windowHeight := inject_Z (innerHeight dom) in
      let len := Z.of_nat (length storyContent) in
      if String.eqb key "ArrowDown" || String.eqb key " " then
        let nextIndex := Z.min (currentIndex s + 1) (len - 1) in
        (s, [preventDefault; scrollTo (inject_Z nextIndex * windowHeight) smooth])
      else if String.eqb key "ArrowUp" then
        let prevIndex := Z.max (currentIndex s - 1) 0 in
        (s, [preventDefault; scrollTo (inject_Z prevIndex * windowHeight) smooth])
      else if String.eqb key "Escape" then (s, [onClose])
      else (s, [])
  end.

(** The effect on [isOpen]: [if (isOpen) setCurrentIndex(0)]. *)
Definition onOpenChange (isOpen : bool) (s : State) : State :=
  if isOpen then setCurrentIndex 0 s else s.

(** The three navigation inputs of the preview. *)
Inductive Navigation : Set :=
| Scroll
| TouchEnd
| KeyDown (key : string).

Definition navigate (storyContent : list StoryContentItem) (dom : Dom)
    (ev : Navigation) (s : State) : State * list Effect :=
  match ev with
  | Scroll => handleScroll storyContent dom s
  | TouchEnd => handleTouchEnd storyContent dom s
  | KeyDown key => handleKeyDown storyContent dom key s
  end.

(** The cursor points at a slide. *)
Definition inRange (storyContent : list StoryContentItem) (s : State) : Prop :=
  0 <= currentIndex s <= Z.of_nat (length storyContent) - 1.

End StoryPreviewModal.

(** ** The preview of the backup editor, with its settle timers *)

Module BackupPreviewModal.

Import StoryEditor.

Record State : Set := mkState {
  currentIndex : Z;
  isTransitioning : bool;
}.

(** The two callbacks the component hands to [setTimeout]. *)
Inductive Callback : Set :=
| commitNext   (* setCurrentIndex(prev => prev + 1); setIsTransitioning(false) *)
| commitPrev.  (* setCurrentIndex(prev => prev - 1); setIsTransitioning(false) *)

(** The component in its event loop: the clock in time units and the
    pending timers with the time they are due, in [setTimeout] order. *)
Record Loop : Set := mkLoop {
  state : State;
  clock : nat;
  timers : list (nat * Callback);
}.

Definition initial : Loop :=
  {| state := {| currentIndex := 0; isTransitioning := false |};
     clock := 0; timers := [] |}.

Definition settle : nat := 200.

Definition setTimeout (cb : Callback) (delay : nat) (w : Loop) : Loop :=
  {| state := state w; clock := clock w;
     timers := timers w ++ [((clock w + delay)%nat, cb)] |}.

Definition setIsTransitioning (b : bool) (w : Loop) : Loop :=
  {| state := {| currentIndex := currentIndex (state w); isTransitioning := b |};
     clock := clock w; timers := timers w |}.

(** [nextSlide] and [prevSlide] *)
Definition nextSlide (storyContent : list StoryContentItem) (w : Loop) : Loop :=
  if currentIndex (state w) <? Z.of_nat (length storyContent) - 1 then
    setTimeout commitNext settle (setIsTransitioning true w)
  else w.

Definition prevSlide (w : Loop) : Loop :=
  if 0 <? currentIndex (state w) then
    setTimeout commitPrev settle (setIsTransitioning true w)
  else w.

(** The slide indicator: [onClick={() => setCurrentIndex(index)}]. *)
Definition selectSlide (index : nat) (w : Loop) : Loop :=
  {| state := {| currentIndex := Z.of_nat index;
                 isTransitioning := isTransitioning (state w) |};
     clock := clock w; timers := timers w |}.

Definition run (cb : Callback) (s : State) : State :=
  match cb with
  | commitNext => {| currentIndex := currentIndex s + 1; isTransitioning := false |}
  | commitPrev => {| currentIndex := currentIndex s - 1; isTransitioning := false |}
  end.

(** One time unit passes; the timers that are due run, oldest first. *)
Definition tick (w : Loop) : Loop :=
  let t := S (clock w) in
  let due := filter (fun p => (fst p <= t)%nat) (timers w) in
  let rest := filter (fun p => ~ (fst p <= t)%nat) (timers w) in
  {| state := fold_left (fun s p => run (snd p) s) due (state w);
     clock := t; timers := rest |}.

Fixpoint advance (k : nat) (w : Loop) : Loop :=
  match k with
  | O => w
  | S k' => advance k' (tick w)
  end.

(** [if (!storyContent.length) return null]: nothing is rendered, and no
    arrow or indicator can be clicked, for an empty list. *)
Definition renders (storyContent : list StoryContentItem) : bool :=
  negb (Z.of_nat (length storyContent) =? 0).

(** The transition contract of a discrete step [step] taken in [w] towards
    [target]: from the step on [isTransitioning] is true and the index is
    still the old one for every time short of the settle duration, and at
    the settle duration the index is [target] and [isTransitioning] is
    false again. *)
Definition settles (step : Loop -> Loop) (w : Loop) (target : Z) : Prop :=
  (forall k, (k < settle)%nat ->
     state (advance k (step w))
     = {| currentIndex := currentIndex (state w); isTransitioning := true |})
  /\ state (advance settle (step w))
     = {| currentIndex := target; isTransitioning := false |}.

End BackupPreviewModal.

(** ** The editor's buttons around the content list *)

Module ContentActions.

Import StoryEditor.

Definition setCurrentText (t : string) (prev : Editor) : Editor :=
  {| storyContent := storyContent prev; currentText := t |}.

(** The "Add Text" button of the editor:
    [const text = prompt(...); if (text) { setCurrentText(text); handleAddText(); }].
    [handleAddText] is the one of the render that drew the button. *)
Definition onClickPromptText (now : string) (answer : option string) (render : Editor)
  : Editor -> Editor :=
  fun prev =>
    match answer with
    | Some t => if truthy t then handleAddText now render (setCurrentText t prev) else prev
    | None => prev
    end.

(** What the user can do to the content list, each event handled by the
    render that is on screen and, for an image, with the file read before
    anything else happens. *)
Inductive Action : Set :=
| PromptText (now : string) (answer : option string)   (* editor *)
| InlineText (now : string) (answer : option string)   (* backup editor *)
| ImageLoaded (now result : string)
| Remove (i : string).

Definition step (e : Editor) (a : Action) : Editor :=
  match a with
  | PromptText now answer => onClickPromptText now answer e e
  | InlineText now answer => onClickAddText now answer e e
  | ImageLoaded now result =>
      match handleAddImage e (Some result) with
      | Some loaded => loaded now e
      | None => e
      end
  | Remove i => removeContentItem i e
  end.

Definition fresh : Editor := {| storyContent := []; currentText := EmptyString |}.

Definition session (actions : list Action) : Editor := fold_left step actions fresh.

(** A text that trims to nothing: white space only. *)
Definition blank (s : string) : Prop := trim s = EmptyString.

(** The label of an item in the editor's list:
    [item.type === 'image' ? 'Image'
       : item.content.substring(0, 30) + (item.content.length > 30 ? '...' : '')]. *)
Definition itemLabel (item : StoryContentItem) : string :=
  match type item with
  | image => "Image"
  | text =>
      String.append (JS.substring0 30 (content item))
        (if (30 <? JS.length (content item))%nat then "..." else EmptyString)
  end.

End ContentActions.

(** ** Saving, publishing and opening the preview *)

Module StoryForm.

Inductive Status : Set := published | draft.

(** [contentType === "text"], [contentType === "image"] *)
Definition typeIs (a b : StoryEditor.ItemType) : bool :=
  match a, b with
  | StoryEditor.text, StoryEditor.text | StoryEditor.image, StoryEditor.image => true
  | _, _ => false
  end.

(** The [useState] cells of the editor that saving and previewing read.
    [coverImage] is the chosen file, named by the URL
    [URL.createObjectURL] gives it. *)
Record Form : Set := mkForm {
  title : string;
  content : string;
  genre : string;
  tags : string;
  coverImage : option string;
  contentType : StoryEditor.ItemType;
  storyContent : list StoryEditor.StoryContentItem;
  isSaving : bool;
  isPublishing : bool;
  showPreview : bool;
}.

(** The object handed to [onSave]. *)
Record StoryData : Set := mkStoryData {
  savedTitle : string;
  savedContent : string;
  savedGenre : string;
  savedTags : list string;
  status : Status;
  savedCoverImage : option string;
  savedStoryContent : list StoryEditor.StoryContentItem;
  publishedAt : option string;
}.

Inductive Effect : Set :=
| onSave (d : StoryData)
| toast (heading description : string) (destructive : bool)
| onClose.

(** [s.split(sep)] for a one-character separator. *)
Fixpoint split (sep : ascii) (s : string) : list string :=
  match s with
  | EmptyString => [EmptyString]
  | String c s' =>
      if Ascii.eqb c sep then EmptyString :: split sep s'
      else
        match split sep s' with
        | h :: t => String c h :: t
        | [] => [String c EmptyString]
        end
  end.

(** [tags.split(',').map(tag => tag.trim()).filter(Boolean)] *)
Definition parseTags (s : string) : list string :=
  List.filter StoryEditor.truthy (List.map StoryEditor.trim (split "," s)).

Definition setIsSaving (b : bool) (prev : Form) : Form :=
  {| title := title prev; content := content prev; genre := genre prev;
     tags := tags prev; coverImage := coverImage prev;
     contentType := contentType prev; storyContent := storyContent prev;
     isSaving := b; isPublishing := isPublishing prev;
     showPreview := showPreview prev |}.

Definition setIsPublishing (b : bool) (prev : Form) : Form :=
  {| title := title prev; content := content prev; genre := genre prev;
     tags := tags prev; coverImage := coverImage prev;
     contentType := contentType prev; storyContent := storyContent prev;
     isSaving := isSaving prev; isPublishing := b;
     showPreview := showPreview prev |}.

Definition setShowPreview (b : bool) (prev : Form) : Form :=
  {| title := title prev; content := content prev; genre := genre prev;
     tags := tags prev; coverImage := coverImage prev;
     contentType := contentType prev; storyContent := storyContent prev;
     isSaving := isSaving prev; isPublishing := isPublishing prev;
     showPreview := b |}.

(** [handleSave(publish)]: what runs at the click. *)
Definition handleSave (publish : bool) (prev : Form) : Form :=
  setIsPublishing publish (setIsSaving true prev).

(** The callback [handleSave] hands to [setTimeout(..., 1000)]: it reads the
    fields of the render that was clicked, runs at ISO time [now], and
    [hasOnSave] tells whether the [onSave] prop was given. *)
Definition saveTimeout (publish hasOnSave : bool) (now : string) (render : Form)
  : Form -> Form * list Effect :=
  fun prev =>
    (setIsSaving false prev,
     (if hasOnSave then
        [onSave {| savedTitle := title render; savedContent := content render;
                   savedGenre := genre render; savedTags := parseTags (tags render);
                   status := if publish then published else draft;
                   savedCoverImage := coverImage render;
                   savedStoryContent := storyContent render;
                   publishedAt := if publish then Some now else None |}]
      else [])
     ++ [if publish
         then toast "Story Published!" "Your story has been published successfully." false
         else toast "Draft Saved!" "Your changes have been saved as a draft." false]
     ++ (if publish then [onClose] else [])).

(** [handleSaveDraft], [handlePublish] *)
Definition handleSaveDraft : Form -> Form := handleSave false.
Definition handlePublish : Form -> Form := handleSave true.

(** [disabled] of the two save buttons of the editor. *)
Definition isSaveDraftDisabled (f : Form) : bool := isSaving f || isPublishing f.

Definition isPublishDisabled (f : Form) : bool :=
  isSaving f || isPublishing f
  || negb (StoryEditor.truthy (title f))
  || negb (StoryEditor.truthy (genre f))
  || (typeIs (contentType f) StoryEditor.text && negb (StoryEditor.truthy (content f)))
  || (typeIs (contentType f) StoryEditor.image
      && (Z.of_nat (length (storyContent f)) =? 0)).

(** [handlePreview] *)
Definition handlePreview (f : Form) : Form * list Effect :=
  if negb (StoryEditor.truthy (title f))
     || (if typeIs (contentType f) StoryEditor.text
         then negb (StoryEditor.truthy (content f))
         else (Z.of_nat (length (storyContent f)) =? 0))
  then (f, [toast "Cannot Preview"
              "Please add a title and some content to preview your story." true])
  else (setShowPreview true f, []).

(** The Preview buttons: [onClick={() => setShowPreview(true)}],
    [disabled={storyContent.length === 0}]. *)
Definition isPreviewDisabled (f : Form) : bool :=
  Z.of_nat (length (storyContent f)) =? 0.

(** The preview the editor mounts, [showPreview && <StoryPreviewModal
    isOpen={showPreview} storyContent={storyContent} />], once its effect
    on [isOpen] has run: does it draw a slide? *)
Definition previewDraws (f : Form) (s : StoryPreviewModal.State) : bool :=
  showPreview f
  && StoryPreviewModal.renders (showPreview f) (storyContent f)
       (StoryPreviewModal.onOpenChange (showPreview f) s).

(** A form with a title, a genre and the three-slide story on the image tab. *)
Definition ready : Form :=
  {| title := "Dragons"; content := EmptyString; genre := "fantasy";
     tags := "magic, dragons"; coverImage := None;
     contentType := StoryEditor.image; storyContent := StoryEditor.sample;
     isSaving := false; isPublishing := false; showPreview := false |}.

End StoryForm.

(** ** Gestures and the progress bars of the scrolling preview *)

Module PreviewSession.

Import StoryEditor StoryPreviewModal.

(** A finger put down at [y0], moved to [y1] and lifted. *)
Definition gesture (storyContent : list StoryContentItem) (dom : Dom) (y0 y1 : Q)
    (s : State) : State * list Effect :=
  handleTouchEnd storyContent dom
    (fst (handleTouchMove y1 (fst (handleTouchStart y0 s)))).

(** A finger put down at [y0] and lifted without a move event. *)
Definition tap (storyContent : list StoryContentItem) (dom : Dom) (y0 : Q)
    (s : State) : State * list Effect :=
  handleTouchEnd storyContent dom (fst (handleTouchStart y0 s)).

(** The offsets a handler asked to scroll to. *)
Definition scrollTops (effects : list Effect) : list Q :=
  flat_map (fun e => match e with scrollTo top _ => [top] | _ => [] end) effects.

(** The fill of progress bar [i]:
    [i < currentIndex ? 'w-full' : i === currentIndex ? 'w-0 animate-pulse' : 'w-0']. *)
Inductive Bar : Set := w_full | w_0_animate_pulse | w_0.

Definition bar (s : State) (i : nat) : Bar :=
  if Z.of_nat i <? currentIndex s then w_full
  else if Z.of_nat i =? currentIndex s then w_0_animate_pulse
  else w_0.

(** [storyContent.map((_, i) => ...)] *)
Definition progress (storyContent : list StoryContentItem) (s : State) : list Bar :=
  imap (fun i _ => bar s i) storyContent.

End PreviewSession.

(** ** Arrow clicks of the backup preview *)

Module BackupSession.

Import BackupPreviewModal.

(** What a pending callback will add to the index. *)
Definition delta (cb : Callback) : Z :=
  match cb with commitNext => 1 | commitPrev => -1 end.

Definition total (l : list (nat * Callback)) : Z :=
  fold_right Z.add 0 (List.map (fun p => delta (snd p)) l).

Definition pending (w : Loop) : Z := total (timers w).

End BackupSession.

(** * Properties of the content list *)

Section ContentList.

Import StoryEditor.

Implicit Types (l : list StoryContentItem) (x : StoryContentItem) (i : string).

Lemma withOrder_payload index x : payload (withOrder index x) = payload x.
Proof. reflexivity. Qed.

Lemma withOrder_fixed index x : order x = Z.of_nat index -> withOrder index x = x.
Proof. destruct x as [a b c d]; unfold withOrder; simpl; intros ->; reflexivity. Qed.

(** Renumbering by [map((item, index) => ...)] establishes the invariant
    whatever the list was. *)
Lemma imap_withOrder_renumbered l : renumbered (imap withOrder l).
Proof.
  intros k x Hk. rewrite list_lookup_imap in Hk.
  destruct (l !! k) as [y|]; simpl in Hk; [|discriminate].
  injection Hk as <-. reflexivity.
Qed.

(** On a list that satisfies the invariant the renumbering changes nothing. *)
Lemma imap_withOrder_fixed l : renumbered l -> imap withOrder l = l.
Proof.
  intros Hl. apply list_eq; intros k. rewrite list_lookup_imap.
  destruct (l !! k) as [y|] eqn:Hk; simpl; [|reflexivity].
  f_equal. apply withOrder_fixed, (Hl k y Hk).
Qed.

Lemma renumbered_nil : renumbered [].
Proof. intros k x Hk. rewrite lookup_nil in Hk. discriminate. Qed.

Lemma renumbered_snoc l x :
  renumbered l -> order x = Z.of_nat (length l) -> renumbered (l ++ [x]).
Proof.
  intros Hl Hx k y Hk.
  destruct (decide (k < length l)%nat) as [Hlt|Hge].
  - rewrite lookup_app_l in Hk by exact Hlt. exact (Hl k y Hk).
  - rewrite lookup_app_r in Hk by lia.
    destruct (k - length l)%nat as [|m] eqn:Hm; simpl in Hk; [|discriminate].
    injection Hk as <-. rewrite Hx. f_equal. lia.
Qed.

Lemma renumbered_take l k : renumbered l -> renumbered (take k l).
Proof.
  intros Hl j y Hj. apply lookup_take_Some in Hj as [Hj _]. exact (Hl j y Hj).
Qed.

Lemma renumberedb_spec l : renumberedb l = true <-> renumbered l.
Proof.
  unfold renumberedb, renumbered. rewrite forallb_forall. split.
  - intros H k x Hk. apply Z.eqb_eq.
    apply (H (order x =? Z.of_nat k)).
    apply list_elem_of_In.
    apply (elem_of_lookup_imap_2 (fun index y => order y =? Z.of_nat index) l x k Hk).
  - intros H b Hin.
    apply list_elem_of_In, elem_of_lookup_imap in Hin as (k & x & -> & Hk).
    apply Z.eqb_eq, (H k x Hk).
Qed.

(** [filter] keeps a list whose items all pass. *)
Lemma filter_keeps_all i l :
  (forall x, x ∈ l -> id x <> i) -> filter (fun item => id item <> i) l = l.
Proof.
  induction l as [|y l IH]; intros H; [reflexivity|].
  rewrite filter_cons_True by (apply H; left).
  f_equal. apply IH. intros x Hx. apply H. right. exact Hx.
Qed.

Lemma removeFrom_renumbered i l : renumbered (removeFrom i l).
Proof. apply imap_withOrder_renumbered. Qed.

Lemma removeFrom_payload i l :
  payload <$> removeFrom i l = payload <$> filter (fun item => id item <> i) l.
Proof.
  unfold removeFrom. rewrite fmap_imap.
  rewrite (imap_ext _ (fun _ => payload)) by (intros; apply withOrder_payload).
  apply imap_const.
Qed.

(** A text append handled in the render that created the handler. *)
Lemma handleAddText_renumbered now (e : Editor) :
  renumbered (storyContent e) -> renumbered (storyContent (handleAddText now e e)).
Proof.
  intros He. unfold handleAddText.
  destruct (negb (truthy (trim (currentText e)))); [exact He|].
  simpl. apply renumbered_snoc; [exact He|reflexivity].
Qed.

(** An image append keeps the invariant when the list has the length the
    reader's render saw. *)
Lemma onloadend_renumbered (render prev : Editor) now result :
  length (storyContent render) = length (storyContent prev) ->
  renumbered (storyContent prev) ->
  renumbered (storyContent (onloadend render now result prev)).
Proof.
  intros Hlen Hp. simpl. apply renumbered_snoc; [exact Hp|].
  simpl. rewrite Hlen. reflexivity.
Qed.

Lemma onClickAddText_renumbered now answer (render prev : Editor) :
  renumbered (storyContent render) -> renumbered (storyContent prev) ->
  renumbered (storyContent (onClickAddText now answer render prev)).
Proof.
  intros Hr Hp. unfold onClickAddText.
  destruct answer as [t|]; [|exact Hp].
  destruct (truthy t); [|exact Hp].
  simpl. apply renumbered_snoc; [exact Hr|reflexivity].
Qed.

End ContentList.

Section ContentListClaims.

Import StoryEditor.

Implicit Types (l : list StoryContentItem) (x : StoryContentItem) (i : string).

(** The items in front of the first removed one come back as they were,
    when the list satisfied the invariant. *)
Lemma removeFrom_prefix i l k :
  renumbered l ->
  (forall x, x ∈ take k l -> id x <> i) ->
  take k (removeFrom i l) = take k l.
Proof.
  intros Hl Hk. unfold removeFrom.
  rewrite <- (take_drop k l) at 1.
  rewrite filter_app, imap_app.
  rewrite (filter_keeps_all i (take k l) Hk).
  rewrite (imap_withOrder_fixed (take k l)) by (apply renumbered_take, Hl).
  destruct (decide (k <= length l)%nat) as [Hle|Hgt].
  - apply take_app_length'. rewrite length_take_le; [reflexivity|exact Hle].
  - rewrite drop_ge by lia. simpl. rewrite app_nil_r, take_take, Nat.min_id. reflexivity.
Qed.

Lemma sample_renumbered : renumbered sample.
Proof. apply renumberedb_spec. reflexivity. Defined.

(** C1 (defect of the code): the invariant [sequence[i].order == i] is lost
    by an image Append whose file was chosen before another Append ran.
    The reader's callback numbers the new item with the length of the list
    its render saw (empty), while the list it appends to already holds the
    text item: both items end with [order] 0. *)
Theorem image_append_numbers_from_stale_render :
  let e0 := {| storyContent := []; currentText := "a" |} in
  exists loaded : string -> Editor -> Editor,
    handleAddImage e0 (Some "data:image/png;base64,AA") = Some loaded /\
    let e1 := handleAddText "1700000000000" e0 e0 in
    let e2 := loaded "1700000000050" e1 in
    renumbered (storyContent e0) /\
    renumbered (storyContent e1) /\
    order <$> storyContent e2 = [0; 0] /\
    ~ renumbered (storyContent e2).
Proof.
  simpl. eexists. split; [reflexivity|].
  split; [apply renumbered_nil|].
  split; [apply renumberedb_spec; reflexivity|].
  split; [reflexivity|].
  intros H. apply renumberedb_spec in H. discriminate H.
Qed.

(** C8: on a sequence that satisfies the invariant [order == index],
    Remove(id) of an id that does not occur in it gives back the same
    state: no item and no [order] field changes. *)
Theorem removeContentItem_absent_id i (prev : Editor) :
  renumbered (storyContent prev) ->
  (forall x, x ∈ storyContent prev -> id x <> i) ->
  removeContentItem i prev = prev.
Proof.
  intros Hl Hi. destruct prev as [l t]. unfold removeContentItem, removeFrom. simpl in *.
  rewrite (filter_keeps_all i l Hi), (imap_withOrder_fixed l Hl). reflexivity.
Qed.

Lemma removeContentItem_absent_id_witness :
  removeContentItem "99" {| storyContent := sample; currentText := "x" |}
  = {| storyContent := sample; currentText := "x" |}.
Proof.
  apply removeContentItem_absent_id.
  - exact sample_renumbered.
  - simpl. intros x Hx. apply list_elem_of_In in Hx. simpl in Hx.
    destruct Hx as [<-|[<-|[<-|[]]]]; simpl; discriminate.
Defined.

(** C8, as stated, fails on a list whose [order] fields are not the
    indices: on the two items numbered 0 and 0 that an image Append with a
    stale render leaves behind, Remove of an id that does not occur
    rewrites the second [order] to 1. *)
Lemma absent_id_still_renumbers :
  ("99" ∉ (id <$> [ {| id := "1700000000000"; type := text; content := "a"; order := 0 |};
                    {| id := "1700000000050"; type := image;
                       content := "data:image/png;base64,AA"; order := 0 |} ]))
  /\ order <$> storyContent
        (removeContentItem "99"
           {| storyContent :=
                [ {| id := "1700000000000"; type := text; content := "a"; order := 0 |};
                  {| id := "1700000000050"; type := image;
                     content := "data:image/png;base64,AA"; order := 0 |} ];
              currentText := EmptyString |}) = [0; 1]
  /\ removeContentItem "99"
       {| storyContent :=
            [ {| id := "1700000000000"; type := text; content := "a"; order := 0 |};
              {| id := "1700000000050"; type := image;
                 content := "data:image/png;base64,AA"; order := 0 |} ];
          currentText := EmptyString |}
     <> {| storyContent :=
             [ {| id := "1700000000000"; type := text; content := "a"; order := 0 |};
               {| id := "1700000000050"; type := image;
                  content := "data:image/png;base64,AA"; order := 0 |} ];
           currentText := EmptyString |}.
Proof.
  split; [|split].
  - intros H. apply list_elem_of_In in H. simpl in H.
    destruct H as [H|[H|[]]]; discriminate H.
  - reflexivity.
  - intros H. apply (f_equal (fun e => order <$> storyContent e)) in H.
    vm_compute in H. discriminate H.
Qed.

(** C10, as stated, fails on a list whose [order] fields are not the
    indices: on items numbered 0, 0 and 2, removing the last one rewrites
    the [order] of the item in front of it from 0 to 1. *)
Lemma remove_rewrites_item_in_front :
  [ {| id := "1"; type := text; content := "a"; order := 0 |};
    {| id := "2"; type := image; content := "u"; order := 0 |};
    {| id := "3"; type := text; content := "b"; order := 2 |} ] !! 1%nat
  = Some {| id := "2"; type := image; content := "u"; order := 0 |}
  /\ removeFrom "3"
       [ {| id := "1"; type := text; content := "a"; order := 0 |};
         {| id := "2"; type := image; content := "u"; order := 0 |};
         {| id := "3"; type := text; content := "b"; order := 2 |} ] !! 1%nat
     = Some {| id := "2"; type := image; content := "u"; order := 1 |}.
Proof. split; reflexivity. Qed.

(** C10: Remove(id) keeps the remaining items in their relative order with
    their id, kind and content; every remaining item's [order] is its new
    index; and, on a sequence that satisfied the invariant, the items in
    front of the removed position come back unchanged, so that only the
    [order] of later items is rewritten. *)
Theorem removeFrom_frame i l :
  payload <$> removeFrom i l = payload <$> filter (fun item => id item <> i) l
  /\ (forall k x, removeFrom i l !! k = Some x -> order x = Z.of_nat k)
  /\ (renumbered l ->
      forall k, (forall x, x ∈ take k l -> id x <> i) ->
                take k (removeFrom i l) = take k l).
Proof.
  split; [apply removeFrom_payload|].
  split; [apply removeFrom_renumbered|].
  intros Hl k Hk. apply removeFrom_prefix; assumption.
Qed.

Lemma removeFrom_frame_witness :
  take 1 (removeFrom "12" sample) = take 1 sample.
Proof.
  apply (proj2 (proj2 (removeFrom_frame "12" sample)) sample_renumbered 1%nat).
  simpl. intros x Hx. apply list_elem_of_In in Hx. simpl in Hx.
  destruct Hx as [<-|[]]; simpl; discriminate.
Defined.

End ContentListClaims.

(** * Properties of the scrolling preview *)

Section PreviewNumbers.

Lemma gt_true (x y : Q) : JS.gt x y = true <-> (y < x)%Q.
Proof.
  unfold JS.gt. rewrite negb_true_iff. split.
  - intros H. apply Qnot_le_lt. intros Hle. apply Qle_bool_iff in Hle. congruence.
  - intros H. destruct (Qle_bool x y) eqn:E; [|reflexivity].
    apply Qle_bool_iff in E. exfalso. exact (Qlt_not_le _ _ H E).
Qed.

Lemma gt_false (x y : Q) : JS.gt x y = false <-> (x <= y)%Q.
Proof. unfold JS.gt. rewrite negb_false_iff. apply Qle_bool_iff. Qed.

Lemma ge_true (x y : Q) : JS.ge x y = true <-> (y <= x)%Q.
Proof. apply Qle_bool_iff. Qed.

Lemma ge_false (x y : Q) : JS.ge x y = false <-> (x < y)%Q.
Proof.
  unfold JS.ge. split.
  - intros H. apply Qnot_le_lt. intros Hle. apply Qle_bool_iff in Hle. congruence.
  - intros H. destruct (Qle_bool y x) eqn:E; [|reflexivity].
    apply Qle_bool_iff in E. exfalso. exact (Qlt_not_le _ _ H E).
Qed.

Lemma le_true (x y : Q) : JS.le x y = true <-> (x <= y)%Q.
Proof. apply Qle_bool_iff. Qed.

Lemma falsy_false (x : Q) : ~ (x == 0)%Q -> JS.falsy x = false.
Proof.
  intros H. unfold JS.falsy. destruct (Qeq_bool x 0) eqn:E; [|reflexivity].
  apply Qeq_bool_iff in E. contradiction.
Qed.

(** [Math.round] of a quotient that lies below the midpoint before [n]. *)
Lemma Math_round_below (y h : Q) (n : Z) :
  (0 < h)%Q -> (y < (inject_Z n - (1 # 2)) * h)%Q -> JS.Math_round (y / h) <= n - 1.
Proof.
  intros Hh Hy. unfold JS.Math_round.
  assert (Hq : (y / h < inject_Z n - (1 # 2))%Q) by (apply Qlt_shift_div_r; assumption).
  assert (Hf := Qfloor_le (y / h + (1 # 2))).
  assert (Hlt : (inject_Z (Qfloor (y / h + (1 # 2))) < inject_Z n)%Q) by lra.
  rewrite <- Zlt_Qlt in Hlt. lia.
Qed.

Lemma Math_round_nonneg (y h : Q) :
  (0 < h)%Q -> (0 <= y)%Q -> 0 <= JS.Math_round (y / h).
Proof.
  intros Hh Hy. unfold JS.Math_round.
  assert (Hq : (0 <= y / h)%Q).
  { apply Qle_shift_div_l; [exact Hh|]. lra. }
  change 0 with (Qfloor 0). apply Qfloor_resp_le. lra.
Qed.

Lemma inject_Z_pos (h : Z) : 0 < h -> (0 < inject_Z h)%Q.
Proof. intros H. change 0%Q with (inject_Z 0). rewrite <- Zlt_Qlt. exact H. Qed.

End PreviewNumbers.

Section PreviewNavigation.

Import StoryEditor StoryPreviewModal.

Variable storyContent : list StoryContentItem.
Variable dom : Dom.

Local Abbreviation len := (Z.of_nat (length storyContent)).
Local Abbreviation windowHeight := (inject_Z (innerHeight dom)).

(** The three outcomes of [handleTouchEnd] once the guard is passed. *)
Lemma handleTouchEnd_swipe_up (s : State) y :
  containerRef dom = Some y -> ~ (touchStartY s == 0)%Q ->
  (30 < JS.minus (touchStartY s) (touchEndY s))%Q ->
  currentIndex (fst (handleTouchEnd storyContent dom s))
  = JS.rem (currentIndex s + 1) len.
Proof.
  intros Hc Hs Hd. unfold handleTouchEnd. rewrite (falsy_false _ Hs), Hc.
  assert (Habs := Qle_Qabs (JS.minus (touchStartY s) (touchEndY s))).
  assert (H1 : JS.gt (JS.Math_abs (JS.minus (touchStartY s) (touchEndY s))) 30 = true).
  { apply gt_true. unfold JS.Math_abs. lra. }
  assert (H2 : JS.gt (JS.minus (touchStartY s) (touchEndY s)) 0 = true).
  { apply gt_true. lra. }
  rewrite H1, H2. reflexivity.
Qed.

Lemma handleTouchEnd_swipe_down (s : State) y :
  containerRef dom = Some y -> ~ (touchStartY s == 0)%Q ->
  (JS.minus (touchStartY s) (touchEndY s) < - (30))%Q ->
  currentIndex (fst (handleTouchEnd storyContent dom s))
  = JS.rem (currentIndex s - 1 + len) len.
Proof.
  intros Hc Hs Hd. unfold handleTouchEnd. rewrite (falsy_false _ Hs), Hc.
  assert (Habs := Qle_Qabs (- (JS.minus (touchStartY s) (touchEndY s)))).
  rewrite Qabs_opp in Habs.
  assert (H1 : JS.gt (JS.Math_abs (JS.minus (touchStartY s) (touchEndY s))) 30 = true).
  { apply gt_true. unfold JS.Math_abs. lra. }
  assert (H2 : JS.gt (JS.minus (touchStartY s) (touchEndY s)) 0 = false).
  { apply gt_false. lra. }
  rewrite H1, H2. reflexivity.
Qed.

Lemma handleTouchEnd_currentIndex (s : State) :
  currentIndex (fst (handleTouchEnd storyContent dom s)) = currentIndex s
  \/ currentIndex (fst (handleTouchEnd storyContent dom s)) = JS.rem (currentIndex s + 1) len
  \/ currentIndex (fst (handleTouchEnd storyContent dom s))
     = JS.rem (currentIndex s - 1 + len) len.
Proof.
  unfold handleTouchEnd.
  destruct (JS.falsy (touchStartY s)); [left; reflexivity|].
  destruct (containerRef dom); [|left; reflexivity].
  destruct (JS.gt (JS.Math_abs _) 30); [|left; reflexivity].
  destruct (JS.gt _ 0); [right; left|right; right]; reflexivity.
Qed.

Lemma handleKeyDown_state key (s : State) :
  fst (handleKeyDown storyContent dom key s) = s.
Proof.
  unfold handleKeyDown. destruct (containerRef dom); [|reflexivity].
  destruct (_ || _); [reflexivity|].
  destruct (String.eqb key "ArrowUp"); [reflexivity|].
  destruct (String.eqb key "Escape"); reflexivity.
Qed.

Lemma handleScroll_inRange (s : State) :
  1 <= len -> 0 < innerHeight dom ->
  (forall y, containerRef dom = Some y -> (0 <= y)%Q) ->
  inRange storyContent s ->
  inRange storyContent (fst (handleScroll storyContent dom s)).
Proof.
  intros Hn Hh Hy Hs. unfold handleScroll.
  destruct (containerRef dom) as [y|] eqn:Hc; [|exact Hs].
  specialize (Hy y eq_refl). apply inject_Z_pos in Hh.
  destruct (JS.ge y _) eqn:Hend.
  { unfold inRange; simpl. lia. }
  destruct (JS.le y 0 && (currentIndex s =? 0)).
  { unfold inRange; simpl. lia. }
  destruct (negb _); [|exact Hs].
  apply ge_false in Hend. unfold inRange; simpl. split.
  - apply Math_round_nonneg; assumption.
  - apply Math_round_below; assumption.
Qed.

Lemma handleTouchEnd_inRange (s : State) :
  1 <= len -> inRange storyContent s ->
  inRange storyContent (fst (handleTouchEnd storyContent dom s)).
Proof.
  intros Hn Hs. unfold inRange in *.
  destruct (handleTouchEnd_currentIndex s) as [-> | [-> | ->]]; [exact Hs| |].
  - pose proof (Z.rem_bound_pos (currentIndex s + 1) len). unfold JS.rem. lia.
  - pose proof (Z.rem_bound_pos (currentIndex s - 1 + len) len). unfold JS.rem. lia.
Qed.

(** Every navigation handler leaves [isTransitioning] as it found it. *)
Lemma navigate_isTransitioning ev (s : State) :
  isTransitioning (fst (navigate storyContent dom ev s)) = isTransitioning s.
Proof.
  destruct ev as [| |key]; simpl.
  - unfold handleScroll. destruct (containerRef dom); [|reflexivity].
    destruct (JS.ge _ _); [reflexivity|].
    destruct (_ && _); [reflexivity|]. destruct (negb _); reflexivity.
  - unfold handleTouchEnd. destruct (JS.falsy _); [reflexivity|].
    destruct (containerRef dom); [|reflexivity].
    destruct (JS.gt (JS.Math_abs _) 30); [|reflexivity].
    destruct (JS.gt _ 0); reflexivity.
  - rewrite handleKeyDown_state. reflexivity.
Qed.

(** C2: with at least one slide, every navigation input (a scroll update,
    the end of a touch gesture, a key press) leaves [currentIndex] an
    integer between 0 and n-1.  The browser gives a positive window height
    and a scroll offset that is not negative. *)
Theorem navigate_inRange ev (s : State) :
  1 <= len -> 0 < innerHeight dom ->
  (forall y, containerRef dom = Some y -> (0 <= y)%Q) ->
  inRange storyContent s ->
  inRange storyContent (fst (navigate storyContent dom ev s)).
Proof.
  intros Hn Hh Hy Hs. destruct ev as [| |key]; simpl.
  - apply handleScroll_inRange; assumption.
  - apply handleTouchEnd_inRange; assumption.
  - rewrite handleKeyDown_state. exact Hs.
Qed.

(** C3: with at least one slide, the looping step of a touch swipe wraps:
    a swipe up (the binary64 difference start minus end above the
    threshold 30) on the last slide goes to index 0, a swipe down (below
    -30) on the first slide goes to index n-1. *)
Theorem handleTouchEnd_wraps (s : State) y :
  1 <= len -> containerRef dom = Some y -> ~ (touchStartY s == 0)%Q ->
  ((30 < JS.minus (touchStartY s) (touchEndY s))%Q -> currentIndex s = len - 1 ->
   currentIndex (fst (handleTouchEnd storyContent dom s)) = 0)
  /\ ((JS.minus (touchStartY s) (touchEndY s) < - (30))%Q -> currentIndex s = 0 ->
      currentIndex (fst (handleTouchEnd storyContent dom s)) = len - 1).
Proof.
  intros Hn Hc Hs. split; intros Hd Hi.
  - rewrite (handleTouchEnd_swipe_up s y Hc Hs Hd), Hi. unfold JS.rem.
    replace (len - 1 + 1) with len by lia. apply Z.rem_same. lia.
  - rewrite (handleTouchEnd_swipe_down s y Hc Hs Hd), Hi. unfold JS.rem.
    replace (0 - 1 + len) with (len - 1) by lia. apply Z.rem_small. lia.
Qed.

(** When the two touch cells differ by at most the threshold,
    [abs(touchStartY - touchEndY) <= 30], the end of the touch leaves
    [currentIndex] alone. *)
Lemma handleTouchEnd_below_threshold (s : State) :
  (Qabs (JS.minus (touchStartY s) (touchEndY s)) <= 30)%Q ->
  currentIndex (fst (handleTouchEnd storyContent dom s)) = currentIndex s.
Proof.
  intros Hd. unfold handleTouchEnd.
  destruct (JS.falsy (touchStartY s)); [reflexivity|].
  destruct (containerRef dom); [|reflexivity].
  assert (H1 : JS.gt (JS.Math_abs (JS.minus (touchStartY s) (touchEndY s))) 30 = false).
  { apply gt_false. exact Hd. }
  rewrite H1. reflexivity.
Qed.

(** C5: with at least one slide, a scroll offset at or past the midpoint
    between slide n-1 and slide n makes the scroll handler ask for scroll
    position 0 and set [currentIndex] to 0; a scroll offset at or before 0
    while [currentIndex] is 0 makes it set [currentIndex] to n-1 and ask
    for that slide's position. *)
Theorem handleScroll_loops (s : State) y :
  1 <= len -> 0 < innerHeight dom -> containerRef dom = Some y ->
  (((inject_Z len - (1 # 2)) * windowHeight <= y)%Q ->
   currentIndex (fst (handleScroll storyContent dom s)) = 0
   /\ snd (handleScroll storyContent dom s) = [scrollTo 0 auto])
  /\ ((y <= 0)%Q -> currentIndex s = 0 ->
      currentIndex (fst (handleScroll storyContent dom s)) = len - 1
      /\ snd (handleScroll storyContent dom s)
         = [scrollTo (inject_Z (len - 1) * windowHeight) auto]).
Proof.
  intros Hn Hh Hc. unfold handleScroll. rewrite Hc. split.
  - intros Hy. apply ge_true in Hy. rewrite Hy. split; reflexivity.
  - intros Hy Hi. apply inject_Z_pos in Hh.
    assert (Hhalf : (0 < (inject_Z len - (1 # 2)) * windowHeight)%Q).
    { apply Qmult_lt_0_compat; [|exact Hh].
      assert (Hl : (inject_Z 1 <= inject_Z len)%Q) by (rewrite <- Zle_Qle; exact Hn).
      change (inject_Z 1) with 1%Q in Hl. lra. }
    assert (H1 : JS.ge y ((inject_Z len - (1 # 2)) * windowHeight) = false).
    { apply ge_false. lra. }
    rewrite H1. apply le_true in Hy. rewrite Hy, Hi. split; reflexivity.
Qed.

End PreviewNavigation.

(** * The settle timers of the backup preview *)

Section SettleTimers.

Import StoryEditor BackupPreviewModal.

Lemma advance_tick k (w : Loop) : advance (S k) w = tick (advance k w).
Proof. revert w. induction k as [|k IH]; intros w; [reflexivity|]. simpl. rewrite <- IH. reflexivity. Qed.

Lemma tick_pending (w : Loop) d cb :
  timers w = [(d, cb)] -> (S (clock w) < d)%nat ->
  tick w = {| state := state w; clock := S (clock w); timers := [(d, cb)] |}.
Proof.
  intros Ht Hd. unfold tick. rewrite Ht.
  rewrite filter_cons_False by (simpl; lia).
  rewrite filter_cons_True by (simpl; lia).
  rewrite !filter_nil. reflexivity.
Qed.

Lemma tick_due (w : Loop) d cb :
  timers w = [(d, cb)] -> d = S (clock w) ->
  tick w = {| state := run cb (state w); clock := d; timers := [] |}.
Proof.
  intros Ht ->. unfold tick. rewrite Ht.
  rewrite filter_cons_True by (simpl; lia).
  rewrite filter_cons_False by (simpl; lia).
  rewrite !filter_nil. reflexivity.
Qed.

(** While its only timer is not due, the loop only counts time. *)
Lemma advance_pending k : forall (w : Loop) d cb,
  timers w = [(d, cb)] -> (clock w + k < d)%nat ->
  advance k w = {| state := state w; clock := (clock w + k)%nat; timers := [(d, cb)] |}.
Proof.
  induction k as [|k IH]; intros w d cb Ht Hd.
  - simpl. rewrite Nat.add_0_r, <- Ht. destruct w; reflexivity.
  - simpl. rewrite (tick_pending w d cb Ht) by lia.
    rewrite (IH _ d cb); [|reflexivity|simpl; lia].
    simpl. f_equal. lia.
Qed.

(** A step that arms one settle timer on an idle loop meets the contract. *)
Lemma armed_settles (step : Loop -> Loop) (w : Loop) cb :
  step w = setTimeout cb settle (setIsTransitioning true w) ->
  timers w = [] ->
  settles step w (currentIndex (run cb (state w))).
Proof.
  intros Hstep Ht. unfold settles. rewrite Hstep.
  set (w1 := setTimeout cb settle (setIsTransitioning true w)).
  assert (Ht1 : timers w1 = [((clock w + settle)%nat, cb)]) by (simpl; rewrite Ht; reflexivity).
  split.
  - intros k Hk. rewrite (advance_pending k w1 _ cb Ht1) by (simpl; lia). reflexivity.
  - unfold settle at 1. rewrite advance_tick.
    rewrite (advance_pending 199 w1 _ cb Ht1) by (simpl; unfold settle; lia).
    erewrite tick_due; [|reflexivity|simpl; unfold settle; lia].
    simpl. destruct cb; reflexivity.
Qed.

(** C7, as the code has it: a change of [currentIndex] made by an arrow
    ([nextSlide], [prevSlide]) on a preview with no transition under way
    first sets [isTransitioning], keeps it and the old index for the settle
    duration of 200 time units, and then commits the new index and clears
    [isTransitioning] in the same callback. *)
Theorem arrow_step_settles (storyContent : list StoryContentItem) (w : Loop) :
  timers w = [] ->
  (currentIndex (state w) < Z.of_nat (length storyContent) - 1 ->
   settles (nextSlide storyContent) w (currentIndex (state w) + 1))
  /\ (0 < currentIndex (state w) ->
      settles prevSlide w (currentIndex (state w) - 1)).
Proof.
  intros Ht. split; intros Hi.
  - apply (armed_settles (nextSlide storyContent) w commitNext); [|exact Ht].
    unfold nextSlide. apply Z.ltb_lt in Hi. rewrite Hi. reflexivity.
  - apply (armed_settles prevSlide w commitPrev); [|exact Ht].
    unfold prevSlide. apply Z.ltb_lt in Hi. rewrite Hi. reflexivity.
Qed.

Lemma arrow_step_settles_witness :
  settles (nextSlide sample) initial 1.
Proof.
  apply (proj1 (arrow_step_settles sample initial eq_refl)).
  simpl. lia.
Defined.

(** C7, as stated, fails for tap-to-select: a tap on the third slide
    indicator changes [currentIndex] from 0 to 2 at once, and
    [isTransitioning] is never set. *)
Lemma indicator_tap_does_not_settle :
  state (selectSlide 2 initial) = {| currentIndex := 2; isTransitioning := false |}
  /\ ~ settles (selectSlide 2) initial 2.
Proof.
  split; [reflexivity|].
  intros [H _]. specialize (H 0%nat). simpl in H.
  assert (Hk : (0 < settle)%nat) by (unfold settle; lia).
  specialize (H Hk). discriminate H.
Qed.

End SettleTimers.

(** * Boundaries and the empty story *)

Section Boundaries.

Import StoryEditor.

(** C4: the clamped step of keyboard navigation stops at the boundaries.
    ArrowDown or Space on the last slide and ArrowUp on the first leave
    the state as it is and only ask to scroll to the current slide; the
    arrows of the backup preview do nothing there. *)
Theorem keyboard_step_clamps (storyContent : list StoryContentItem)
    (dom : StoryPreviewModal.Dom) (s : StoryPreviewModal.State) (y : Q) :
  StoryPreviewModal.containerRef dom = Some y ->
  (StoryPreviewModal.currentIndex s = Z.of_nat (length storyContent) - 1 ->
   forall key, key = "ArrowDown" \/ key = " " ->
     StoryPreviewModal.handleKeyDown storyContent dom key s
     = (s, [StoryPreviewModal.preventDefault;
            StoryPreviewModal.scrollTo
              (inject_Z (StoryPreviewModal.currentIndex s)
               * inject_Z (StoryPreviewModal.innerHeight dom))
              StoryPreviewModal.smooth]))
  /\ (StoryPreviewModal.currentIndex s = 0 ->
      StoryPreviewModal.handleKeyDown storyContent dom "ArrowUp" s
      = (s, [StoryPreviewModal.preventDefault;
             StoryPreviewModal.scrollTo
               (inject_Z (StoryPreviewModal.currentIndex s)
                * inject_Z (StoryPreviewModal.innerHeight dom))
               StoryPreviewModal.smooth]))
  /\ (forall w : BackupPreviewModal.Loop,
        BackupPreviewModal.currentIndex (BackupPreviewModal.state w)
        = Z.of_nat (length storyContent) - 1 ->
        BackupPreviewModal.nextSlide storyContent w = w)
  /\ (forall w : BackupPreviewModal.Loop,
        BackupPreviewModal.currentIndex (BackupPreviewModal.state w) = 0 ->
        BackupPreviewModal.prevSlide w = w).
Proof.
  intros Hc. repeat split.
  - intros Hi key Hkey. unfold StoryPreviewModal.handleKeyDown. rewrite Hc.
    assert (Hk : String.eqb key "ArrowDown" || String.eqb key " " = true)
      by (destruct Hkey as [-> | ->]; reflexivity).
    rewrite Hk. rewrite Z.min_r by lia. rewrite Hi. reflexivity.
  - intros Hi. unfold StoryPreviewModal.handleKeyDown. rewrite Hc. simpl.
    rewrite Hi. reflexivity.
  - intros w Hi. unfold BackupPreviewModal.nextSlide. rewrite Hi, Z.ltb_irrefl. reflexivity.
  - intros w Hi. unfold BackupPreviewModal.prevSlide. rewrite Hi. reflexivity.
Qed.

(** C6 (defect of the code): a tap, finger down at 400 and lifted at 400
    with no move in between, is a gesture whose start and end differ by 0,
    yet it changes [currentIndex] from 0 to 1: [touchEndY] is written by
    move events only and still holds the 0 it was reset to, so the handler
    measures 400 - 0. *)
Theorem tap_within_threshold_advances :
  (Qabs (400 - 400) <= 30)%Q
  /\ StoryPreviewModal.touchEndY
       (fst (StoryPreviewModal.handleTouchStart 400 StoryPreviewModal.initial)) = 0%Q
  /\ StoryPreviewModal.currentIndex StoryPreviewModal.initial = 0
  /\ StoryPreviewModal.handleTouchEnd sample
       {| StoryPreviewModal.containerRef := Some 0%Q;
          StoryPreviewModal.innerHeight := 800 |}
       (fst (StoryPreviewModal.handleTouchStart 400 StoryPreviewModal.initial))
     = ({| StoryPreviewModal.currentIndex := 1;
           StoryPreviewModal.isTransitioning := false;
           StoryPreviewModal.touchStartY := 0%Q;
           StoryPreviewModal.touchEndY := 0%Q |},
        [StoryPreviewModal.scrollTo (inject_Z 1 * inject_Z 800)
           StoryPreviewModal.smooth]).
Proof.
  split; [discriminate|]. split; [reflexivity|]. split; [reflexivity|].
  vm_compute. reflexivity.
Qed.

(** C9: with an empty slide list the preview renders nothing, its
    container is never mounted, and every navigation call (scroll update,
    end of a touch gesture, key press) returns the state unchanged and asks
    for nothing; the backup preview renders nothing either and its arrows
    would do nothing. *)
Theorem empty_story_is_inert (isOpen : bool) (s : StoryPreviewModal.State)
    (scrollTop : Q) (height : Z) (ev : StoryPreviewModal.Navigation) :
  StoryPreviewModal.renders isOpen [] s = false
  /\ StoryPreviewModal.navigate []
       (StoryPreviewModal.mount isOpen [] s scrollTop height) ev s = (s, [])
  /\ BackupPreviewModal.renders [] = false
  /\ (forall w : BackupPreviewModal.Loop,
        BackupPreviewModal.currentIndex (BackupPreviewModal.state w) = 0 ->
        BackupPreviewModal.nextSlide [] w = w /\ BackupPreviewModal.prevSlide w = w).
Proof.
  assert (Hr : StoryPreviewModal.renders isOpen [] s = false).
  { unfold StoryPreviewModal.renders. simpl. destruct isOpen; reflexivity. }
  split; [exact Hr|]. split.
  - unfold StoryPreviewModal.mount. rewrite Hr.
    destruct ev; simpl; [reflexivity| |reflexivity].
    unfold StoryPreviewModal.handleTouchEnd.
    destruct (JS.falsy (StoryPreviewModal.touchStartY s)); reflexivity.
  - split; [reflexivity|]. intros w Hi.
    unfold BackupPreviewModal.nextSlide, BackupPreviewModal.prevSlide.
    rewrite Hi. split; reflexivity.
Qed.

End Boundaries.

(** * The properties at work on the three-slide story *)

Section Instances.

Import StoryEditor.

Lemma navigate_inRange_witness :
  StoryPreviewModal.inRange sample
    (fst (StoryPreviewModal.navigate sample
            {| StoryPreviewModal.containerRef := Some (1199 # 1)%Q;
               StoryPreviewModal.innerHeight := 800 |}
            StoryPreviewModal.Scroll StoryPreviewModal.initial)).
Proof.
  apply navigate_inRange.
  - simpl. lia.
  - simpl. lia.
  - simpl. intros y Hy. injection Hy as <-. discriminate.
  - unfold StoryPreviewModal.inRange. simpl. lia.
Defined.

(** A swipe with [diff = 50] on the three-slide story: from index 2 to
    index 0, and with [diff = -50] from index 0 to index 2. *)
Lemma handleTouchEnd_wraps_witness :
  StoryPreviewModal.currentIndex
    (fst (StoryPreviewModal.handleTouchEnd sample
            {| StoryPreviewModal.containerRef := Some 0%Q;
               StoryPreviewModal.innerHeight := 800 |}
            {| StoryPreviewModal.currentIndex := 2;
               StoryPreviewModal.isTransitioning := false;
               StoryPreviewModal.touchStartY := 100%Q;
               StoryPreviewModal.touchEndY := 50%Q |})) = 0
  /\ StoryPreviewModal.currentIndex
       (fst (StoryPreviewModal.handleTouchEnd sample
               {| StoryPreviewModal.containerRef := Some 0%Q;
                  StoryPreviewModal.innerHeight := 800 |}
               {| StoryPreviewModal.currentIndex := 0;
                  StoryPreviewModal.isTransitioning := false;
                  StoryPreviewModal.touchStartY := 50%Q;
                  StoryPreviewModal.touchEndY := 100%Q |})) = 2.
Proof.
  split.
  - refine (proj1 (handleTouchEnd_wraps sample
                     (StoryPreviewModal.mkDom (Some 0%Q) 800)
                     (StoryPreviewModal.mkState 2 false 100%Q 50%Q) 0%Q _ eq_refl _) _ _).
    + simpl. lia.
    + simpl. intros H. discriminate H.
    + simpl. reflexivity.
    + simpl. reflexivity.
  - refine (proj2 (handleTouchEnd_wraps sample
                     (StoryPreviewModal.mkDom (Some 0%Q) 800)
                     (StoryPreviewModal.mkState 0 false 50%Q 100%Q) 0%Q _ eq_refl _) _ _).
    + simpl. lia.
    + simpl. intros H. discriminate H.
    + simpl. reflexivity.
    + simpl. reflexivity.
Defined.

(** Three slides of height 800: offset 2000 is the midpoint between slide
    2 and slide 3; offset 0 on the first slide loops to the last one. *)
Lemma handleScroll_loops_witness :
  (StoryPreviewModal.currentIndex
     (fst (StoryPreviewModal.handleScroll sample
             {| StoryPreviewModal.containerRef := Some 2000%Q;
                StoryPreviewModal.innerHeight := 800 |}
             (StoryPreviewModal.setCurrentIndex 2 StoryPreviewModal.initial))) = 0
   /\ snd (StoryPreviewModal.handleScroll sample
             {| StoryPreviewModal.containerRef := Some 2000%Q;
                StoryPreviewModal.innerHeight := 800 |}
             (StoryPreviewModal.setCurrentIndex 2 StoryPreviewModal.initial))
      = [StoryPreviewModal.scrollTo 0 StoryPreviewModal.auto])
  /\ (StoryPreviewModal.currentIndex
        (fst (StoryPreviewModal.handleScroll sample
                {| StoryPreviewModal.containerRef := Some 0%Q;
                   StoryPreviewModal.innerHeight := 800 |}
                StoryPreviewModal.initial)) = Z.of_nat (length sample) - 1
      /\ snd (StoryPreviewModal.handleScroll sample
                {| StoryPreviewModal.containerRef := Some 0%Q;
                   StoryPreviewModal.innerHeight := 800 |}
                StoryPreviewModal.initial)
         = [StoryPreviewModal.scrollTo
              (inject_Z (Z.of_nat (length sample) - 1) * inject_Z 800)
              StoryPreviewModal.auto]).
Proof.
  split.
  - refine (proj1 (handleScroll_loops sample
                     (StoryPreviewModal.mkDom (Some 2000%Q) 800)
                     (StoryPreviewModal.setCurrentIndex 2 StoryPreviewModal.initial)
                     2000%Q _ _ eq_refl) _).
    + simpl. lia.
    + simpl. lia.
    + simpl. discriminate.
  - refine (proj2 (handleScroll_loops sample
                     (StoryPreviewModal.mkDom (Some 0%Q) 800)
                     StoryPreviewModal.initial 0%Q _ _ eq_refl) _ _).
    + simpl. lia.
    + simpl. lia.
    + discriminate.
    + reflexivity.
Defined.

Lemma keyboard_step_clamps_witness :
  StoryPreviewModal.handleKeyDown sample
    {| StoryPreviewModal.containerRef := Some 1600%Q;
       StoryPreviewModal.innerHeight := 800 |}
    "ArrowDown"
    (StoryPreviewModal.setCurrentIndex 2 StoryPreviewModal.initial)
  = (StoryPreviewModal.setCurrentIndex 2 StoryPreviewModal.initial,
     [StoryPreviewModal.preventDefault;
      StoryPreviewModal.scrollTo (inject_Z 2 * inject_Z 800) StoryPreviewModal.smooth]).
Proof.
  refine (proj1 (keyboard_step_clamps sample
                   (StoryPreviewModal.mkDom (Some 1600%Q) 800)
                   (StoryPreviewModal.setCurrentIndex 2 StoryPreviewModal.initial)
                   1600%Q eq_refl) _ "ArrowDown" _).
  - reflexivity.
  - left. reflexivity.
Defined.

Lemma empty_story_is_inert_witness :
  BackupPreviewModal.nextSlide [] BackupPreviewModal.initial = BackupPreviewModal.initial
  /\ BackupPreviewModal.prevSlide BackupPreviewModal.initial = BackupPreviewModal.initial.
Proof.
  refine (proj2 (proj2 (proj2
    (empty_story_is_inert true StoryPreviewModal.initial 0%Q 800 StoryPreviewModal.Scroll)))
    BackupPreviewModal.initial _).
  reflexivity.
Defined.

End Instances.

(** * More about the content list *)

Section Stripping.

Variables (w1 : ascii -> bool) (w2 : ascii -> ascii -> bool)
          (w3 : ascii -> ascii -> ascii -> bool).

Local Abbreviation strip := (StoryEditor.strip w1 w2 w3).
Local Abbreviation settled := (StoryEditor.settled w1 w2 w3).

Lemma strip_bounded (n : nat) : forall l : list ascii,
  (length l <= n)%nat -> settled (strip l) /\ exists p, l = p ++ strip l.
Proof.
  induction n as [|n IH]; intros l Hn.
  - destruct l; [|simpl in Hn; lia]. simpl. split; [exact I|exists []; reflexivity].
  - assert (IH' : forall k : list ascii, (length k <= n)%nat ->
              forall front, settled (strip k) /\ exists p, front ++ k = p ++ strip k).
    { intros k Hk front. destruct (IH k Hk) as [Hs [p Hp]].
      split; [exact Hs|]. exists (front ++ p). rewrite <- app_assoc, <- Hp. reflexivity. }
    destruct l as [|a l1]; [simpl; split; [exact I|exists []; reflexivity]|].
    simpl in Hn. cbn [StoryEditor.strip].
    destruct (w1 a) eqn:H1.
    { apply (IH' l1 ltac:(lia) [a]). }
    destruct l1 as [|b l2].
    { split; [simpl; rewrite H1; tauto|exists []; reflexivity]. }
    simpl in Hn. destruct (w2 a b) eqn:H2.
    { apply (IH' l2 ltac:(lia) [a; b]). }
    destruct l2 as [|c l3].
    { split; [simpl; rewrite H1, H2; tauto|exists []; reflexivity]. }
    simpl in Hn. destruct (w3 a b c) eqn:H3.
    { apply (IH' l3 ltac:(lia) [a; b; c]). }
    split; [simpl; rewrite H1, H2, H3; tauto|exists []; reflexivity].
Qed.

Lemma strip_settled (l : list ascii) : settled (strip l).
Proof. apply (strip_bounded (length l) l). lia. Qed.

Lemma strip_suffix (l : list ascii) : exists p, l = p ++ strip l.
Proof. apply (strip_bounded (length l) l). lia. Qed.

Lemma settled_strip (l : list ascii) : settled l -> strip l = l.
Proof.
  destruct l as [|a [|b [|c l3]]]; simpl; try reflexivity.
  - intros [-> _]. reflexivity.
  - intros [-> [-> _]]. reflexivity.
  - intros [-> [-> ->]]. reflexivity.
Qed.

Lemma settled_prefix (v t : list ascii) : settled (v ++ t) -> settled v.
Proof.
  destruct v as [|a [|b [|c v3]]]; simpl; try tauto.
  all: destruct t as [|d [|e t]]; simpl; tauto.
Qed.

End Stripping.

Section Trimming.

Import StoryEditor ContentActions.

Local Abbreviation bytes := list_ascii_of_string.
Local Abbreviation text := string_of_list_ascii.
Local Abbreviation front := (strip isSpace1 isSpace2 isSpace3).
Local Abbreviation back :=
  (strip isSpace1 (fun a b => isSpace2 b a) (fun a b c => isSpace3 c b a)).

Lemma bytes_trim (s : string) :
  bytes (trim s) = List.rev (back (List.rev (front (bytes s)))).
Proof.
  unfold trim, trimEnd, trimStart.
  rewrite !list_ascii_of_string_of_list_ascii. reflexivity.
Qed.

(** What [trim] returns is a piece of the text with no white space left
    at either end. *)
Lemma trim_shape (s : string) :
  exists v p q,
    bytes (trim s) = v /\ bytes s = p ++ v ++ q
    /\ StoryEditor.settled isSpace1 isSpace2 isSpace3 v
    /\ StoryEditor.settled isSpace1 (fun a b => isSpace2 b a)
         (fun a b c => isSpace3 c b a) (List.rev v).
Proof.
  rewrite bytes_trim.
  destruct (strip_suffix isSpace1 isSpace2 isSpace3 (bytes s)) as [p Hp].
  set (u := front (bytes s)) in *.
  destruct (strip_suffix isSpace1 (fun a b => isSpace2 b a)
              (fun a b c => isSpace3 c b a) (List.rev u)) as [q Hq].
  set (r := back (List.rev u)) in *.
  assert (Hu : u = List.rev r ++ List.rev q).
  { rewrite <- (rev_involutive u), Hq, rev_app_distr. reflexivity. }
  exists (List.rev r), p, (List.rev q). split; [reflexivity|]. split; [|split].
  - rewrite Hp at 1. rewrite Hu. reflexivity.
  - apply (settled_prefix _ _ _ (List.rev r) (List.rev q)).
    rewrite <- Hu. apply strip_settled.
  - rewrite rev_involutive. apply strip_settled.
Qed.

(** What [trim] returns needs no more trimming. *)
Lemma trim_idem (s : string) : trim (trim s) = trim s.
Proof.
  destruct (trim_shape s) as (v & p & q & Hv & _ & Hf & Hb).
  rewrite <- (string_of_list_ascii_of_string (trim s)) at 2.
  rewrite <- (string_of_list_ascii_of_string (trim (trim s))).
  f_equal. rewrite (bytes_trim (trim s)), Hv.
  rewrite (settled_strip _ _ _ v Hf), (settled_strip _ _ _ (List.rev v) Hb).
  apply rev_involutive.
Qed.

Lemma trim_chars (s : string) (c : ascii) :
  In c (bytes (trim s)) -> In c (bytes s).
Proof.
  destruct (trim_shape s) as (v & p & q & Hv & Hs & _). rewrite Hv, Hs.
  intros H. apply in_or_app. right. apply in_or_app. left. exact H.
Qed.

Lemma truthy_trim (s : string) : truthy (trim s) = false <-> blank s.
Proof. unfold blank. destruct (trim s); simpl; split; congruence. Qed.

End Trimming.

Section ContentListMore.

Import StoryEditor ContentActions.

Implicit Types (l : list StoryContentItem) (x : StoryContentItem) (i : string).

Lemma handleAddText_blank now (render prev : Editor) :
  blank (currentText render) -> handleAddText now render prev = prev.
Proof.
  intros Hb. unfold handleAddText. apply truthy_trim in Hb. rewrite Hb. reflexivity.
Qed.

(** X1: the text handler either gives up on blank text or appends one text
    item at the tail: the list it is applied to is kept in front, the new
    content is the trimmed text, never empty and with nothing left to trim,
    and the text cell is cleared. *)
Theorem handleAddText_guard now (render prev : Editor) :
  (blank (currentText render) -> handleAddText now render prev = prev)
  /\ (~ blank (currentText render) ->
      exists x,
        handleAddText now render prev
        = {| storyContent := storyContent prev ++ [x]; currentText := EmptyString |}
        /\ id x = now /\ type x = text
        /\ content x = trim (currentText render)
        /\ content x <> EmptyString
        /\ trim (content x) = content x).
Proof.
  unfold handleAddText. split; intros Hb.
  - apply truthy_trim in Hb. rewrite Hb. reflexivity.
  - destruct (truthy (trim (currentText render))) eqn:Ht.
    + simpl. eexists. split; [reflexivity|]. simpl.
      repeat split; [|apply trim_idem].
      intros He. apply Hb. exact He.
    + apply truthy_trim in Ht. contradiction.
Qed.

(** A text cell that holds a space and a no-break space (bytes C2 A0). *)
Lemma handleAddText_guard_witness :
  handleAddText "7"
    {| storyContent := sample; currentText := String " " (String "194" (String "160" "")) |}
    {| storyContent := sample; currentText := String " " (String "194" (String "160" "")) |}
  = {| storyContent := sample; currentText := String " " (String "194" (String "160" "")) |}.
Proof.
  apply (proj1 (handleAddText_guard "7" _ _)).
  reflexivity.
Defined.

(** Items that carry the same id, kind and content and are both numbered
    by position are the same items. *)
Lemma renumbered_payload_eq l1 l2 :
  renumbered l1 -> renumbered l2 -> payload <$> l1 = payload <$> l2 -> l1 = l2.
Proof.
  intros H1 H2 Hp. apply list_eq; intros k.
  assert (Hk : (payload <$> l1) !! k = (payload <$> l2) !! k) by (rewrite Hp; reflexivity).
  rewrite !list_lookup_fmap in Hk.
  destruct (l1 !! k) as [x1|] eqn:E1, (l2 !! k) as [x2|] eqn:E2;
    simpl in Hk; try discriminate; [|reflexivity].
  f_equal. apply H1 in E1. apply H2 in E2.
  destruct x1, x2; unfold payload in Hk; simpl in *. congruence.
Qed.

Lemma filter_payload i l1 l2 :
  payload <$> l1 = payload <$> l2 ->
  payload <$> filter (fun item => id item <> i) l1
  = payload <$> filter (fun item => id item <> i) l2.
Proof.
  revert l2. induction l1 as [|x1 l1 IH]; intros [|x2 l2] Hp;
    try discriminate; [reflexivity|].
  rewrite !fmap_cons in Hp.
  assert (Hx : payload x1 = payload x2) by congruence.
  assert (Hl : payload <$> l1 = payload <$> l2) by congruence.
  assert (Hid : id x1 = id x2) by (unfold payload in Hx; congruence).
  rewrite !filter_cons. rewrite <- Hid.
  destruct (decide (id x1 <> i)); rewrite ?fmap_cons, (IH l2 Hl); congruence.
Qed.

(** X2: removing two ids gives the same list in either order, and removing
    one id a second time changes nothing. *)
Theorem removeFrom_commutes i j l :
  removeFrom i (removeFrom j l) = removeFrom j (removeFrom i l)
  /\ removeFrom i (removeFrom i l) = removeFrom i l.
Proof.
  assert (Hboth : forall a b,
    payload <$> removeFrom a (removeFrom b l)
    = payload <$> filter (fun item => id item <> a /\ id item <> b) l).
  { intros a b. rewrite removeFrom_payload.
    rewrite (filter_payload a _ _ (removeFrom_payload b l)).
    rewrite list_filter_filter. reflexivity. }
  split; apply renumbered_payload_eq; try apply removeFrom_renumbered.
  - rewrite !Hboth. f_equal. apply list_filter_iff. tauto.
  - rewrite Hboth, removeFrom_payload. f_equal. apply list_filter_iff. tauto.
Qed.

(** X3: after Remove(id) no item carries that id, and the list is shorter by
    the number of items that carried it: every one of them goes, also when
    an id occurs more than once. *)
Theorem removeFrom_removes_every i l :
  (forall x, x ∈ removeFrom i l -> id x <> i)
  /\ (length (removeFrom i l) + length (filter (fun item => id item = i) l)
      = length l)%nat.
Proof.
  split.
  - intros x Hx. unfold removeFrom in Hx.
    apply elem_of_lookup_imap in Hx as (k & y & -> & Hy).
    apply list_elem_of_lookup_2, list_elem_of_filter in Hy as [Hy _]. exact Hy.
  - unfold removeFrom. rewrite length_imap.
    induction l as [|x l IH]; [reflexivity|].
    rewrite !filter_cons. destruct (decide (id x = i)) as [He|Hne].
    + rewrite decide_False by tauto. simpl. lia.
    + rewrite decide_True by assumption. simpl. lia.
Qed.

Lemma removeFrom_snoc_fresh l x :
  renumbered l -> (forall y, y ∈ l -> id y <> id x) ->
  removeFrom (id x) (l ++ [x]) = l.
Proof.
  intros Hl Hf. unfold removeFrom. rewrite filter_app.
  rewrite (filter_keeps_all (id x) l Hf).
  rewrite filter_cons_False by tauto. rewrite filter_nil, app_nil_r.
  apply imap_withOrder_fixed, Hl.
Qed.

(** X4: append then Remove: removing the item an Append has just added, image
    or text, gives back the list the Append was applied to, provided that
    list satisfied [order == index] and the new id was not in use. *)
Theorem append_then_remove now (render prev : Editor) :
  renumbered (storyContent prev) ->
  (forall y, y ∈ storyContent prev -> id y <> now) ->
  (forall result,
     storyContent (removeContentItem now (onloadend render now result prev))
     = storyContent prev)
  /\ storyContent (removeContentItem now (handleAddText now render prev))
     = storyContent prev.
Proof.
  intros Hl Hf. split.
  - intros result. simpl.
    apply (removeFrom_snoc_fresh (storyContent prev)
             {| id := now; type := image; content := result;
                order := Z.of_nat (length (storyContent render)) |}); assumption.
  - unfold handleAddText. destruct (negb _).
    + simpl. unfold removeFrom. rewrite (filter_keeps_all now _ Hf).
      apply imap_withOrder_fixed, Hl.
    + simpl.
      apply (removeFrom_snoc_fresh (storyContent prev)
               {| id := now; type := text; content := trim (currentText render);
                  order := Z.of_nat (length (storyContent render)) |}); assumption.
Qed.

Lemma sample_ids i : (i <> "11" /\ i <> "12" /\ i <> "13") ->
  forall y, y ∈ sample -> id y <> i.
Proof.
  intros (H1 & H2 & H3) y Hy. apply list_elem_of_In in Hy. simpl in Hy.
  destruct Hy as [<-|[<-|[<-|[]]]]; simpl; congruence.
Defined.

Lemma append_then_remove_witness :
  storyContent
    (removeContentItem "14"
       (handleAddText "14" {| storyContent := sample; currentText := "c" |}
          {| storyContent := sample; currentText := "c" |}))
  = sample.
Proof.
  refine (proj2 (append_then_remove "14"
                   {| storyContent := sample; currentText := "c" |}
                   {| storyContent := sample; currentText := "c" |} _ _)).
  - exact sample_renumbered.
  - apply sample_ids. repeat split; discriminate.
Defined.

(** X5: the prompt button does not add the text the user has just entered:
    with a blank text cell it only stores the answer in the cell, and
    otherwise it appends the text that was in the cell and clears it. *)
Theorem onClickPromptText_adds_previous now t (render prev : Editor) :
  truthy t = true ->
  (blank (currentText render) ->
   onClickPromptText now (Some t) render prev = setCurrentText t prev)
  /\ (~ blank (currentText render) ->
      onClickPromptText now (Some t) render prev
      = {| storyContent :=
             storyContent prev ++
             [ {| id := now; type := text; content := trim (currentText render);
                  order := Z.of_nat (length (storyContent render)) |} ];
           currentText := EmptyString |}).
Proof.
  intros Ht. unfold onClickPromptText. rewrite Ht. split; intros Hb.
  - apply handleAddText_blank, Hb.
  - unfold handleAddText.
    destruct (truthy (trim (currentText render))) eqn:E; [reflexivity|].
    apply truthy_trim in E. contradiction.
Qed.

End ContentListMore.

Section ContentSessions.

Import StoryEditor ContentActions.

Lemma removeFrom_removes_every_witness :
  id {| id := "13"; type := text; content := "b"; order := 1 |} <> "12".
Proof.
  apply (proj1 (removeFrom_removes_every "12" sample)).
  apply list_elem_of_In. vm_compute. right. left. reflexivity.
Defined.

Lemma onClickPromptText_adds_previous_witness :
  onClickPromptText "1" (Some "hello") fresh fresh = setCurrentText "hello" fresh.
Proof.
  apply (proj1 (onClickPromptText_adds_previous "1" "hello" fresh fresh eq_refl)).
  constructor.
Defined.

Lemma handleAddText_keeps_renumbered now (render prev : Editor) :
  length (storyContent render) = length (storyContent prev) ->
  renumbered (storyContent prev) ->
  renumbered (storyContent (handleAddText now render prev)).
Proof.
  intros Hlen Hp. unfold handleAddText. destruct (negb _); [exact Hp|].
  simpl. apply renumbered_snoc; [exact Hp|]. simpl. rewrite Hlen. reflexivity.
Qed.

Lemma step_renumbered (e : Editor) (a : Action) :
  renumbered (storyContent e) -> renumbered (storyContent (step e a)).
Proof.
  intros He. destruct a as [now answer|now answer|now result|i]; simpl.
  - unfold onClickPromptText. destruct answer as [t|]; [|exact He].
    destruct (truthy t); [|exact He].
    apply handleAddText_keeps_renumbered; [reflexivity|exact He].
  - apply onClickAddText_renumbered; exact He.
  - apply renumbered_snoc; [exact He|reflexivity].
  - apply removeFrom_renumbered.
Qed.

(** X6: from an empty editor, whatever the user does (text through either
    button, images, removals), as long as every event is handled by the
    render on screen and every image is read before the next event, the
    list always has [order == index]. *)
Theorem session_renumbered (actions : list Action) :
  renumbered (storyContent (session actions)).
Proof.
  unfold session.
  assert (H : forall e, renumbered (storyContent e) ->
                        renumbered (storyContent (fold_left step actions e))).
  { induction actions as [|a actions IH]; intros e He; [exact He|].
    simpl. apply IH, step_renumbered, He. }
  apply H, renumbered_nil.
Qed.

Lemma units_le (b : ascii) : (JS.units b <= 2)%nat.
Proof.
  unfold JS.units.
  destruct (nat_of_ascii b <? 128)%nat; [lia|].
  destruct (nat_of_ascii b <? 192)%nat; [lia|].
  destruct (nat_of_ascii b <? 240)%nat; lia.
Qed.

Lemma units_continuation (k : nat) :
  (128 <= k < 192)%nat -> JS.units (ascii_of_nat k) = 0%nat.
Proof.
  intros Hk. unfold JS.units. rewrite nat_ascii_embedding by lia.
  destruct (Nat.ltb_spec k 128); [lia|].
  destruct (Nat.ltb_spec k 192); [reflexivity|lia].
Qed.

Lemma highSurrogate_length (b : ascii) (rest : string) :
  JS.length (JS.highSurrogate b rest) = 1%nat.
Proof.
  unfold JS.highSurrogate. destruct rest as [|b1 [|b2 rest]]; try reflexivity.
  set (h := (nat_of_ascii b mod 8 * 256 + nat_of_ascii b1 mod 64 * 4
             + nat_of_ascii b2 mod 64 / 16 - 64)%nat).
  cbn [JS.length].
  change (JS.units (ascii_of_nat 237)) with 1%nat.
  rewrite (units_continuation (160 + (h / 64) mod 16)),
          (units_continuation (128 + h mod 64)).
  - reflexivity.
  - pose proof (Nat.mod_upper_bound h 64). lia.
  - pose proof (Nat.mod_upper_bound (h / 64) 16). lia.
Qed.

Lemma substring0_length (s : string) : forall n : nat,
  JS.length (JS.substring0 n s) = Nat.min n (JS.length s).
Proof.
  induction s as [|b s IH]; intros n; [simpl; lia|].
  pose proof (units_le b) as Hb.
  cbn [JS.substring0 JS.length].
  destruct (JS.units b) as [|[|k]] eqn:E.
  - cbn [JS.length]. rewrite E, IH. lia.
  - destruct n as [|n]; [reflexivity|]. cbn [JS.length]. rewrite E, IH. lia.
  - assert (k = 0%nat) by lia. subst k.
    destruct n as [|[|n]]; [reflexivity| |].
    + rewrite highSurrogate_length. lia.
    + cbn [JS.length]. rewrite E, IH. lia.
Qed.

Lemma substring0_all (s : string) : forall n : nat,
  (JS.length s <= n)%nat -> JS.substring0 n s = s.
Proof.
  induction s as [|b s IH]; intros n Hn; [reflexivity|].
  pose proof (units_le b) as Hb.
  cbn [JS.substring0 JS.length] in *.
  destruct (JS.units b) as [|[|k]] eqn:E.
  - rewrite IH by lia. reflexivity.
  - destruct n as [|n]; [lia|]. rewrite IH by lia. reflexivity.
  - destruct n as [|[|n]]; [lia|lia|]. rewrite IH by lia. reflexivity.
Qed.

Lemma length_append (a b : string) :
  JS.length (String.append a b) = (JS.length a + JS.length b)%nat.
Proof.
  induction a as [|c a IH]; [reflexivity|].
  change (String.append (String c a) b) with (String c (String.append a b)).
  cbn [JS.length]. rewrite IH. lia.
Qed.

Lemma append_empty (a : string) : String.append a EmptyString = a.
Proof.
  induction a as [|c a IH]; [reflexivity|].
  change (String c (String.append a EmptyString) = String c a). f_equal. exact IH.
Qed.

(** X7: the label of an item in the editor's list is never longer than 33
    code units; a text of at most 30 code units is shown whole, a longer
    one as its first 30 code units and three dots. *)
Theorem itemLabel_bounds (item : StoryContentItem) :
  (JS.length (itemLabel item) <= 33)%nat
  /\ (type item = text -> (JS.length (content item) <= 30)%nat ->
      itemLabel item = content item)
  /\ (type item = text -> (30 < JS.length (content item))%nat ->
      itemLabel item = String.append (JS.substring0 30 (content item)) "..."
      /\ JS.length (itemLabel item) = 33%nat).
Proof.
  unfold itemLabel. split; [|split].
  - destruct (type item); [|vm_compute; lia].
    rewrite length_append, substring0_length.
    destruct (30 <? JS.length (content item))%nat;
      [change (JS.length "...") with 3%nat
      |change (JS.length EmptyString) with 0%nat]; lia.
  - intros -> Hle. assert (H := Hle). apply Nat.ltb_ge in H. rewrite H. cbv iota.
    rewrite append_empty. apply substring0_all. exact Hle.
  - intros -> Hlt. assert (H := Hlt). apply Nat.ltb_lt in H. rewrite H. cbv iota.
    split; [reflexivity|]. rewrite length_append, substring0_length.
    change (JS.length "...") with 3%nat. lia.
Qed.

(** Sixteen times the letter e with an acute accent: 32 bytes, 16 code
    units, shown whole. *)
Lemma itemLabel_bounds_witness :
  itemLabel {| id := "1"; type := text;
               content := "éééééééééééééééé"; order := 0 |}
  = "éééééééééééééééé".
Proof.
  refine (proj1 (proj2 (itemLabel_bounds
            {| id := "1"; type := text;
               content := "éééééééééééééééé"; order := 0 |})) _ _).
  - reflexivity.
  - vm_compute. lia.
Defined.

End ContentSessions.

(** * Saving, publishing and opening the preview *)

Section Tags.

Import StoryForm.

Local Abbreviation chars := list_ascii_of_string.

Lemma split_cons (sep : ascii) (s : string) : exists h t, split sep s = h :: t.
Proof.
  destruct s as [|c s]; simpl; [eauto|].
  destruct (Ascii.eqb c sep); [eauto|]. destruct (split sep s); eauto.
Qed.

Lemma split_no_sep (sep : ascii) (s u : string) :
  In u (split sep s) -> ~ In sep (chars u).
Proof.
  revert u. induction s as [|c s IH]; intros u Hu; simpl in Hu.
  - destruct Hu as [<-|[]]. simpl. tauto.
  - destruct (Ascii.eqb c sep) eqn:Hc.
    + destruct Hu as [<-|Hu]; [simpl; tauto|]. apply IH, Hu.
    + apply Ascii.eqb_neq in Hc.
      destruct (split sep s) as [|h t] eqn:Hs.
      * destruct Hu as [<-|[]]. simpl. intros [H|[]]. congruence.
      * destruct Hu as [<-|Hu].
        -- simpl. intros [H|H]; [congruence|]. apply (IH h); [left; reflexivity|exact H].
        -- apply IH. right. exact Hu.
Qed.

Lemma split_whole (sep : ascii) (u : string) :
  ~ In sep (chars u) -> split sep u = [u].
Proof.
  induction u as [|c u IH]; intros H; [reflexivity|]. simpl in *.
  destruct (Ascii.eqb c sep) eqn:Hc.
  - apply Ascii.eqb_eq in Hc. tauto.
  - rewrite IH by tauto. reflexivity.
Qed.

Lemma split_append (sep : ascii) (u s : string) :
  ~ In sep (chars u) ->
  split sep (String.append u (String sep s)) = u :: split sep s.
Proof.
  induction u as [|c u IH]; intros H.
  - simpl. rewrite Ascii.eqb_refl. reflexivity.
  - simpl in H.
    change (String.append (String c u) (String sep s))
      with (String c (String.append u (String sep s))).
    simpl. destruct (Ascii.eqb c sep) eqn:Hc.
    + apply Ascii.eqb_eq in Hc. tauto.
    + rewrite IH by tauto. reflexivity.
Qed.

(** X8: every tag that is saved is non-empty, has no white space left to trim
    at either end and holds no comma. *)
Theorem parseTags_normal (s t : string) :
  In t (parseTags s) ->
  t <> EmptyString /\ StoryEditor.trim t = t /\ ~ In ","%char (chars t).
Proof.
  unfold parseTags. intros H. apply filter_In in H as [H Ht].
  apply in_map_iff in H as (u & <- & Hu). split; [|split].
  - intros He. rewrite He in Ht. discriminate Ht.
  - apply trim_idem.
  - intros Hc. apply trim_chars in Hc. exact (split_no_sep _ _ _ Hu Hc).
Qed.

Lemma parseTags_normal_witness :
  "magic" <> EmptyString /\ StoryEditor.trim "magic" = "magic"
  /\ ~ In ","%char (chars "magic").
Proof.
  apply (parseTags_normal " magic , , dragons" "magic").
  simpl. left. reflexivity.
Defined.

(** X9: the tags field is read piece by piece: the text in front of the first
    comma gives one tag, its trimmed form, or none when it is blank, and
    the rest of the field gives the other tags; a field without a comma
    gives at most one tag. *)
Theorem parseTags_pieces (u s : string) :
  ~ In ","%char (chars u) ->
  parseTags (String.append u (String "," s))
  = (if StoryEditor.truthy (StoryEditor.trim u) then [StoryEditor.trim u] else [])
    ++ parseTags s
  /\ parseTags u
     = (if StoryEditor.truthy (StoryEditor.trim u) then [StoryEditor.trim u] else []).
Proof.
  intros H. unfold parseTags. rewrite (split_append _ u s H), (split_whole _ u H).
  simpl. destruct (StoryEditor.truthy (StoryEditor.trim u)); split; reflexivity.
Qed.

Lemma parseTags_pieces_witness :
  parseTags (String.append " magic " (String "," " dragons"))
  = (if StoryEditor.truthy (StoryEditor.trim " magic ")
     then [StoryEditor.trim " magic "] else [])
    ++ parseTags " dragons".
Proof.
  refine (proj1 (parseTags_pieces " magic " " dragons" _)).
  simpl. intros H. repeat (destruct H as [H|H]; [discriminate H|]). exact H.
Defined.

End Tags.

Section SaveAndPreview.

Import StoryForm.

(** X10: saving a draft is a round trip on the form: once the timer of a draft
    save started from enabled buttons has run, every cell is as before the
    click, so both save buttons are enabled again. *)
Theorem draft_save_restores (hasOnSave : bool) (now : string) (render f : Form) :
  isSaveDraftDisabled f = false ->
  fst (saveTimeout false hasOnSave now render (handleSaveDraft f)) = f.
Proof.
  unfold isSaveDraftDisabled. intros H. apply orb_false_iff in H as [H1 H2].
  destruct f; simpl in *. subst. reflexivity.
Qed.

Lemma draft_save_restores_witness :
  fst (saveTimeout false true "2025-01-01T00:00:00.000Z" ready (handleSaveDraft ready))
  = ready.
Proof. apply draft_save_restores. reflexivity. Defined.

(** X11: publishing does not restore the form: after the timer of a publish has run,
    [isPublishing] is still set, both save buttons stay disabled whatever
    the form holds, and the last thing asked for is [onClose]. *)
Theorem publish_stays_publishing (hasOnSave : bool) (now : string) (render f : Form) :
  let done := saveTimeout true hasOnSave now render (handlePublish f) in
  isPublishing (fst done) = true
  /\ isSaveDraftDisabled (fst done) = true
  /\ isPublishDisabled (fst done) = true
  /\ last (snd done) = Some onClose.
Proof.
  simpl. unfold isSaveDraftDisabled, isPublishDisabled. simpl.
  repeat split. destruct hasOnSave; reflexivity.
Qed.

(** X12: what is handed to [onSave] agrees with what else happens: the story is
    marked published exactly when it carries a publication time, and
    exactly then the editor is asked to close; without an [onSave] prop
    nothing is handed over. *)
Theorem saved_story_is_coherent (publish hasOnSave : bool) (now : string)
    (render prev : Form) (d : StoryData) :
  In (onSave d) (snd (saveTimeout publish hasOnSave now render prev)) ->
  hasOnSave = true
  /\ (status d = published <-> publishedAt d = Some now)
  /\ (status d = published <-> In onClose (snd (saveTimeout publish hasOnSave now render prev)))
  /\ savedTags d = parseTags (tags render)
  /\ savedStoryContent d = storyContent render.
Proof.
  unfold saveTimeout. simpl. intros H.
  destruct hasOnSave, publish; simpl in H |- *;
    repeat (destruct H as [H|H]; try discriminate H); try contradiction;
    injection H as <-; simpl;
    (split; [reflexivity|]); (split; [|split; [|split; reflexivity]]);
    split; intros H; try discriminate H; try reflexivity; try tauto.
  destruct H as [H|[H|[]]]; discriminate H.
Qed.

Lemma saved_story_is_coherent_witness :
  exists d,
    In (onSave d) (snd (saveTimeout true true "2025-01-01T00:00:00.000Z" ready ready))
    /\ (status d = published <-> publishedAt d = Some "2025-01-01T00:00:00.000Z").
Proof.
  eexists. split; [left; reflexivity|].
  refine (proj1 (proj2 (saved_story_is_coherent true true _ ready ready _ _))).
  left. reflexivity.
Defined.

(** X13: whenever Publish is enabled, [handlePreview] accepts the form: it
    sets [showPreview] and shows no "Cannot Preview" toast. *)
Theorem publishable_can_preview (f : Form) :
  isPublishDisabled f = false -> handlePreview f = (setShowPreview true f, []).
Proof.
  unfold isPublishDisabled, handlePreview. intros H.
  repeat (apply orb_false_iff in H as [H ?]).
  destruct (StoryEditor.truthy (title f)); [|discriminate].
  destruct (contentType f); simpl in *.
  - destruct (StoryEditor.truthy (content f)); [reflexivity|discriminate].
  - destruct (Z.of_nat (length (storyContent f)) =? 0); [discriminate|reflexivity].
Qed.

Lemma publishable_can_preview_witness :
  handlePreview ready = (setShowPreview true ready, []).
Proof. apply publishable_can_preview. reflexivity. Defined.

(** X14: the Preview button is enabled exactly when the preview it opens draws
    a slide, wherever the cursor of an earlier preview was left. *)
Theorem preview_button_draws (f : Form) (s : StoryPreviewModal.State) :
  previewDraws (setShowPreview true f) s = negb (isPreviewDisabled f).
Proof.
  unfold previewDraws, isPreviewDisabled, StoryPreviewModal.renders. simpl.
  destruct (Z.of_nat (length (storyContent f)) =? 0) eqn:E; simpl; [reflexivity|].
  apply Z.eqb_neq in E. apply Z.ltb_lt. lia.
Qed.

(** X15: [handlePreview] can open a preview that draws nothing: on the text tab, with a title and a
    text but no slide, it sets [showPreview] and the preview stays blank. *)
Theorem handlePreview_opens_empty (f : Form) (s : StoryPreviewModal.State) :
  StoryEditor.truthy (title f) = true ->
  contentType f = StoryEditor.text ->
  StoryEditor.truthy (content f) = true ->
  storyContent f = [] ->
  showPreview (fst (handlePreview f)) = true
  /\ previewDraws (fst (handlePreview f)) s = false.
Proof.
  intros Ht Hc Hb Hs. unfold handlePreview. rewrite Ht, Hc, Hb, Hs. simpl.
  split; [reflexivity|].
  unfold previewDraws, StoryPreviewModal.renders. simpl. rewrite Hs. reflexivity.
Qed.

Lemma handlePreview_opens_empty_witness :
  showPreview (fst (handlePreview
    {| title := "T"; content := "once"; genre := EmptyString; tags := EmptyString;
       coverImage := None; contentType := StoryEditor.text; storyContent := [];
       isSaving := false; isPublishing := false; showPreview := false |})) = true
  /\ previewDraws (fst (handlePreview
    {| title := "T"; content := "once"; genre := EmptyString; tags := EmptyString;
       coverImage := None; contentType := StoryEditor.text; storyContent := [];
       isSaving := false; isPublishing := false; showPreview := false |}))
      StoryPreviewModal.initial = false.
Proof. apply handlePreview_opens_empty; reflexivity. Defined.

End SaveAndPreview.

(** * More about the scrolling preview *)

Section PreviewMore.

Import StoryEditor StoryPreviewModal PreviewSession.

Variable storyContent : list StoryContentItem.

Local Abbreviation len := (Z.of_nat (length storyContent)).

(** [Math.round] of a number within a half of an integer. *)
Lemma Math_round_near (x : Q) (k : Z) :
  (inject_Z k - (1 # 2) <= x)%Q -> (x < inject_Z k + (1 # 2))%Q -> JS.Math_round x = k.
Proof.
  intros Hlo Hhi. unfold JS.Math_round.
  assert (Hf := Qfloor_le (x + (1 # 2))).
  assert (Hc := Qlt_floor (x + (1 # 2))).
  rewrite inject_Z_plus in Hc. change (inject_Z 1) with 1%Q in Hc.
  assert (H1 : (inject_Z (Qfloor (x + (1 # 2))) < inject_Z (k + 1))%Q).
  { rewrite inject_Z_plus. change (inject_Z 1) with 1%Q. lra. }
  assert (H2 : (inject_Z k < inject_Z (Qfloor (x + (1 # 2)) + 1))%Q).
  { rewrite inject_Z_plus. change (inject_Z 1) with 1%Q. lra. }
  rewrite <- Zlt_Qlt in H1, H2. lia.
Qed.

Lemma setCurrentIndex_same (s : State) : setCurrentIndex (currentIndex s) s = s.
Proof. destruct s; reflexivity. Qed.

Lemma handleScroll_near (dom : Dom) (s : State) (y : Q) (k : Z) :
  0 < innerHeight dom -> containerRef dom = Some y ->
  0 <= k <= len - 1 ->
  ((inject_Z k - (1 # 2)) * inject_Z (innerHeight dom) <= y)%Q ->
  (y < (inject_Z k + (1 # 2)) * inject_Z (innerHeight dom))%Q ->
  (0 < y)%Q \/ currentIndex s <> 0 ->
  handleScroll storyContent dom s = (setCurrentIndex k s, []).
Proof.
  intros Hh Hc Hk Hlo Hhi Hfirst. apply inject_Z_pos in Hh.
  set (h := inject_Z (innerHeight dom)) in *.
  unfold handleScroll. rewrite Hc. fold h.
  assert (Hround : JS.Math_round (y / h) = k).
  { apply Math_round_near.
    - apply Qle_shift_div_l; assumption.
    - apply Qlt_shift_div_r; assumption. }
  assert (Hend : JS.ge y ((inject_Z len - (1 # 2)) * h) = false).
  { apply ge_false. eapply Qlt_le_trans; [exact Hhi|].
    apply Qmult_le_compat_r; [|apply Qlt_le_weak, Hh].
    assert (Hle : (inject_Z (k + 1) <= inject_Z len)%Q) by (rewrite <- Zle_Qle; lia).
    rewrite inject_Z_plus in Hle. change (inject_Z 1) with 1%Q in Hle. lra. }
  assert (Htop : JS.le y 0 && (currentIndex s =? 0) = false).
  { destruct Hfirst as [Hy|Hi].
    - destruct (JS.le y 0) eqn:E; [|reflexivity]. apply le_true in E. lra.
    - apply Z.eqb_neq in Hi. rewrite Hi. apply andb_false_r. }
  rewrite Hend, Htop, Hround.
  destruct (k =? currentIndex s) eqn:E; cbn [negb]; [|reflexivity].
  apply Z.eqb_eq in E. rewrite E, setCurrentIndex_same. reflexivity.
Qed.

(** X16: away from the two loop points, a scroll update makes the slide whose
    position is within half a window height of the offset the current one
    and asks for no scrolling; a second update at the same offset then
    changes nothing. *)
Theorem handleScroll_nearest (dom : Dom) (s : State) (y : Q) (k : Z) :
  0 < innerHeight dom -> containerRef dom = Some y ->
  0 <= k <= len - 1 ->
  ((inject_Z k - (1 # 2)) * inject_Z (innerHeight dom) <= y)%Q ->
  (y < (inject_Z k + (1 # 2)) * inject_Z (innerHeight dom))%Q ->
  (0 < y)%Q ->
  currentIndex (fst (handleScroll storyContent dom s)) = k
  /\ snd (handleScroll storyContent dom s) = []
  /\ handleScroll storyContent dom (fst (handleScroll storyContent dom s))
     = (fst (handleScroll storyContent dom s), []).
Proof.
  intros Hh Hc Hk Hlo Hhi Hy.
  rewrite (handleScroll_near dom s y k) by auto.
  cbn [fst snd]. split; [reflexivity|]. split; [reflexivity|].
  rewrite (handleScroll_near dom (setCurrentIndex k s) y k) by auto.
  reflexivity.
Qed.

(** At the position of slide [k] the scroll handler settles on [k]. *)
Lemma handleScroll_snap (dom : Dom) (s : State) (k : Z) :
  0 < innerHeight dom ->
  containerRef dom = Some (inject_Z k * inject_Z (innerHeight dom))%Q ->
  0 <= k <= len - 1 -> 1 <= k \/ currentIndex s <> 0 ->
  handleScroll storyContent dom s = (setCurrentIndex k s, []).
Proof.
  intros Hh Hc Hk Hfirst. assert (Hq := inject_Z_pos _ Hh).
  apply (handleScroll_near dom s _ k Hh Hc Hk).
  - apply Qmult_le_compat_r; [lra|apply Qlt_le_weak, Hq].
  - apply Qmult_lt_compat_r; [exact Hq|lra].
  - destruct Hfirst as [H1|H0]; [left|right; exact H0].
    apply Qmult_lt_0_compat; [|exact Hq].
    assert (H : (inject_Z 0 < inject_Z k)%Q) by (rewrite <- Zlt_Qlt; lia).
    exact H.
Qed.

(** X17: the keyboard moves the cursor through the scroll handler: away from
    the boundaries, ArrowDown asks to scroll to the next slide's position
    and ArrowUp to the previous one's, and the scroll update at that
    position sets [currentIndex] one higher, respectively one lower.  From
    slide 1 the position ArrowUp asks for is 0, where one more scroll
    update finds the cursor on 0 and loops to the last slide. *)
Theorem keyboard_then_scroll (dom : Dom) (s : State) (y : Q) :
  0 < innerHeight dom -> containerRef dom = Some y -> inRange storyContent s ->
  let at_slide i :=
    {| containerRef := Some (inject_Z i * inject_Z (innerHeight dom))%Q;
       innerHeight := innerHeight dom |} in
  (currentIndex s < len - 1 ->
   handleKeyDown storyContent dom "ArrowDown" s
   = (s, [preventDefault;
          scrollTo (inject_Z (currentIndex s + 1) * inject_Z (innerHeight dom)) smooth])
   /\ currentIndex (fst (handleScroll storyContent (at_slide (currentIndex s + 1)) s))
      = currentIndex s + 1
   /\ snd (handleScroll storyContent (at_slide (currentIndex s + 1)) s) = [])
  /\ (0 < currentIndex s ->
      handleKeyDown storyContent dom "ArrowUp" s
      = (s, [preventDefault;
             scrollTo (inject_Z (currentIndex s - 1) * inject_Z (innerHeight dom)) smooth])
      /\ currentIndex (fst (handleScroll storyContent (at_slide (currentIndex s - 1)) s))
         = currentIndex s - 1
      /\ snd (handleScroll storyContent (at_slide (currentIndex s - 1)) s) = [])
  /\ (currentIndex s = 1 ->
      currentIndex
        (fst (handleScroll storyContent (at_slide 0)
                (fst (handleScroll storyContent (at_slide 0) s))))
      = len - 1).
Proof.
  intros Hh Hc [Hlo Hhi]. cbn zeta. split; [|split]; intros Hi.
  - split.
    + unfold handleKeyDown. rewrite Hc. simpl.
      rewrite Z.min_l by lia. reflexivity.
    + rewrite (handleScroll_snap _ s (currentIndex s + 1));
        simpl; [split; reflexivity|exact Hh|reflexivity|lia|left; lia].
  - split.
    + unfold handleKeyDown. rewrite Hc. simpl.
      rewrite Z.max_l by lia. reflexivity.
    + rewrite (handleScroll_snap _ s (currentIndex s - 1));
        simpl; [split; reflexivity|exact Hh|reflexivity|lia|right; lia].
  - rewrite (handleScroll_snap _ s 0);
      simpl; [|exact Hh|reflexivity|lia|right; lia].
    unfold handleScroll. cbn [containerRef innerHeight setCurrentIndex currentIndex fst].
    assert (Hq := inject_Z_pos _ Hh).
    assert (Hhalf : (0 < (inject_Z len - (1 # 2)) * inject_Z (innerHeight dom))%Q).
    { apply Qmult_lt_0_compat; [|exact Hq].
      assert (Hl : (inject_Z 1 <= inject_Z len)%Q) by (rewrite <- Zle_Qle; lia).
      change (inject_Z 1) with 1%Q in Hl. lra. }
    assert (H0 : (inject_Z 0 * inject_Z (innerHeight dom) == 0)%Q) by ring.
    assert (H1 : JS.ge (inject_Z 0 * inject_Z (innerHeight dom))
                   ((inject_Z len - (1 # 2)) * inject_Z (innerHeight dom)) = false).
    { apply ge_false. lra. }
    assert (H2 : JS.le (inject_Z 0 * inject_Z (innerHeight dom)) 0 = true).
    { apply le_true. lra. }
    rewrite H1, H2. reflexivity.
Qed.

End PreviewMore.

Section Gestures.

Import StoryEditor StoryPreviewModal PreviewSession.

Variable storyContent : list StoryContentItem.
Variable dom : Dom.

Local Abbreviation len := (Z.of_nat (length storyContent)).
Local Abbreviation windowHeight := (inject_Z (innerHeight dom)).

(** What [handleTouchEnd] returns on each side of the threshold. *)
Lemma handleTouchEnd_up (s : State) y :
  containerRef dom = Some y -> ~ (touchStartY s == 0)%Q ->
  (30 < JS.minus (touchStartY s) (touchEndY s))%Q ->
  handleTouchEnd storyContent dom s
  = (setTouchEndY 0 (setTouchStartY 0
       (setCurrentIndex (JS.rem (currentIndex s + 1) len) s)),
     [scrollTo (inject_Z (JS.rem (currentIndex s + 1) len) * windowHeight) smooth]).
Proof.
  intros Hc Hs Hd. unfold handleTouchEnd. rewrite (falsy_false _ Hs), Hc.
  assert (Habs := Qle_Qabs (JS.minus (touchStartY s) (touchEndY s))).
  assert (H1 : JS.gt (JS.Math_abs (JS.minus (touchStartY s) (touchEndY s))) 30 = true).
  { apply gt_true. unfold JS.Math_abs. lra. }
  assert (H2 : JS.gt (JS.minus (touchStartY s) (touchEndY s)) 0 = true).
  { apply gt_true. lra. }
  rewrite H1, H2. reflexivity.
Qed.

Lemma handleTouchEnd_down (s : State) y :
  containerRef dom = Some y -> ~ (touchStartY s == 0)%Q ->
  (JS.minus (touchStartY s) (touchEndY s) < - (30))%Q ->
  handleTouchEnd storyContent dom s
  = (setTouchEndY 0 (setTouchStartY 0
       (setCurrentIndex (JS.rem (currentIndex s - 1 + len) len) s)),
     [scrollTo (inject_Z (JS.rem (currentIndex s - 1 + len) len) * windowHeight) smooth]).
Proof.
  intros Hc Hs Hd. unfold handleTouchEnd. rewrite (falsy_false _ Hs), Hc.
  assert (Habs := Qle_Qabs (- (JS.minus (touchStartY s) (touchEndY s)))).
  rewrite Qabs_opp in Habs.
  assert (H1 : JS.gt (JS.Math_abs (JS.minus (touchStartY s) (touchEndY s))) 30 = true).
  { apply gt_true. unfold JS.Math_abs. lra. }
  assert (H2 : JS.gt (JS.minus (touchStartY s) (touchEndY s)) 0 = false).
  { apply gt_false. lra. }
  rewrite H1, H2. reflexivity.
Qed.

Lemma handleTouchEnd_back (s : State) y :
  containerRef dom = Some y -> ~ (touchStartY s == 0)%Q ->
  (Qabs (JS.minus (touchStartY s) (touchEndY s)) <= 30)%Q ->
  handleTouchEnd storyContent dom s
  = (setTouchEndY 0 (setTouchStartY 0 s),
     [scrollTo (inject_Z (currentIndex s) * windowHeight) smooth]).
Proof.
  intros Hc Hs Hd. unfold handleTouchEnd. rewrite (falsy_false _ Hs), Hc.
  assert (H1 : JS.gt (JS.Math_abs (JS.minus (touchStartY s) (touchEndY s))) 30 = false).
  { apply gt_false. exact Hd. }
  rewrite H1. reflexivity.
Qed.

(** X18: a whole gesture (finger down at [y0], moved to [y1], lifted) on a
    mounted preview with the cursor on a slide: when the binary64
    difference [y0 - y1] is above 30 it goes to index (i + 1) mod n, when
    it is below -30 to (i - 1) mod n, and otherwise it stays; each time the
    touch cells are back at 0 and the one scroll request aims at the
    position of the resulting slide. *)
Theorem gesture_steps (s : State) (y0 y1 yc : Q) :
  containerRef dom = Some yc -> ~ (y0 == 0)%Q -> inRange storyContent s ->
  let landed i :=
    ({| currentIndex := i; isTransitioning := isTransitioning s;
        touchStartY := 0%Q; touchEndY := 0%Q |},
     [scrollTo (inject_Z i * windowHeight) smooth]) in
  ((30 < JS.minus y0 y1)%Q ->
   gesture storyContent dom y0 y1 s = landed ((currentIndex s + 1) mod len))
  /\ ((JS.minus y0 y1 < - (30))%Q ->
      gesture storyContent dom y0 y1 s = landed ((currentIndex s - 1) mod len))
  /\ ((Qabs (JS.minus y0 y1) <= 30)%Q ->
      gesture storyContent dom y0 y1 s = landed (currentIndex s)).
Proof.
  intros Hc Hy [Hlo Hhi]. simpl. unfold gesture. simpl.
  split; [|split]; intros Hd.
  - rewrite (handleTouchEnd_up _ yc Hc); simpl; [|exact Hy|exact Hd].
    unfold JS.rem. rewrite Z.rem_mod_nonneg by lia. reflexivity.
  - rewrite (handleTouchEnd_down _ yc Hc); simpl; [|exact Hy|exact Hd].
    unfold JS.rem. rewrite Z.rem_mod_nonneg by lia.
    replace ((currentIndex s - 1 + len) mod len) with ((currentIndex s - 1) mod len).
    + reflexivity.
    + rewrite <- (Z.mod_add (currentIndex s - 1) 1 len) by lia. f_equal. lia.
  - rewrite (handleTouchEnd_back _ yc Hc); simpl; [reflexivity|exact Hy|exact Hd].
Qed.

(** The touch coordinates nearest to 30.1 and 0.1 differ by more than 30,
    but their binary64 difference is 30: the gesture stays on its slide. *)
Example rounded_difference_stays :
  (30 < JS.number (301 # 10) - JS.number (1 # 10))%Q
  /\ (JS.minus (JS.number (301 # 10)) (JS.number (1 # 10)) == 30)%Q
  /\ currentIndex
       (fst (gesture sample (mkDom (Some 1600%Q) 800)
               (JS.number (301 # 10)) (JS.number (1 # 10))
               (setCurrentIndex 2 initial))) = 2.
Proof. vm_compute. repeat split; reflexivity. Qed.

Lemma number_Qeq (a b : Q) : (a == b)%Q -> JS.number a = JS.number b.
Proof. intros H. unfold JS.number. rewrite (Qred_complete a b H). reflexivity. Qed.

(** Subtracting zero changes no number. *)
Lemma minus_zero (x y : Q) : (y == 0)%Q -> (JS.minus x y == x)%Q.
Proof.
  intros Hy. unfold JS.minus.
  destruct (JS.isDouble x) eqn:Hx; simpl; [|lra].
  destruct (JS.isDouble y); [|lra].
  assert (H : (x - y == x)%Q) by lra.
  rewrite (number_Qeq _ _ H). apply Qeq_bool_iff. exact Hx.
Qed.

(** X19: a touch without a move event is measured against the 0 left in
    [touchEndY] by the gesture before it (or by the initial state): a tap
    lower than 30 units from the top counts as a swipe up and goes to the
    next slide, looping, while a tap within the top 30 units stays. *)
Theorem tap_is_a_swipe (s : State) (y0 yc : Q) :
  containerRef dom = Some yc -> (touchEndY s == 0)%Q ->
  ((30 < y0)%Q ->
   currentIndex (fst (tap storyContent dom y0 s)) = JS.rem (currentIndex s + 1) len)
  /\ ((0 < y0)%Q -> (y0 <= 30)%Q ->
      currentIndex (fst (tap storyContent dom y0 s)) = currentIndex s).
Proof.
  intros Hc He. unfold tap, handleTouchStart.
  cbn [fst]. pose proof (minus_zero y0 (touchEndY s) He) as Hm. split.
  - intros Hy.
    rewrite (handleTouchEnd_up _ yc Hc); unfold setTouchStartY;
      cbn [touchStartY touchEndY currentIndex fst]; [reflexivity| |lra].
    intros H0. lra.
  - intros Hpos Hy.
    rewrite (handleTouchEnd_back _ yc Hc); unfold setTouchStartY;
      cbn [touchStartY touchEndY currentIndex fst]; [reflexivity| |].
    + intros H0. lra.
    + apply Qabs_Qle_condition. split; lra.
Qed.

(** X20: a touch that starts at the very top, [clientY == 0], is not seen as a
    gesture at all: however far the finger moves, lifting it changes
    neither the cursor nor the scroll position, and the touch cells keep
    the values of the move. *)
Theorem touch_from_top_is_ignored (s : State) (y0 y1 : Q) :
  (y0 == 0)%Q ->
  gesture storyContent dom y0 y1 s = (setTouchEndY y1 (setTouchStartY y0 s), []).
Proof.
  intros Hy. unfold gesture, handleTouchEnd. simpl.
  unfold JS.falsy. apply Qeq_bool_iff in Hy. rewrite Hy. reflexivity.
Qed.

(** X21: the scroll handler and the touch handler keep cursor and view
    together: every scroll request they make aims at the position of the
    slide [currentIndex] points to afterwards. *)
Theorem scroll_request_follows_cursor (s : State) (top : Q) :
  (In top (scrollTops (snd (handleScroll storyContent dom s))) ->
   (top == inject_Z (currentIndex (fst (handleScroll storyContent dom s)))
           * windowHeight)%Q)
  /\ (In top (scrollTops (snd (handleTouchEnd storyContent dom s))) ->
      (top == inject_Z (currentIndex (fst (handleTouchEnd storyContent dom s)))
              * windowHeight)%Q).
Proof.
  split.
  - unfold handleScroll. destruct (containerRef dom); [|intros []].
    destruct (JS.ge _ _).
    { simpl. intros [<-|[]]. ring. }
    destruct (_ && _).
    { simpl. intros [<-|[]]. reflexivity. }
    destruct (negb _); intros [].
  - unfold handleTouchEnd. destruct (JS.falsy _); [intros []|].
    destruct (containerRef dom); [|intros []].
    destruct (JS.gt (JS.Math_abs _) 30).
    + destruct (JS.gt _ 0); simpl; intros [<-|[]]; reflexivity.
    + simpl. intros [<-|[]]. reflexivity.
Qed.

End Gestures.

Section ProgressBars.

Import StoryEditor StoryPreviewModal PreviewSession.

Lemma fmap_constant {A B : Type} (f : A -> B) (c : B) (l : list A) :
  (forall x, x ∈ l -> f x = c) -> f <$> l = replicate (length l) c.
Proof.
  induction l as [|a l IH]; intros H; [reflexivity|].
  simpl. rewrite (H a) by left. f_equal. apply IH. intros x Hx. apply H. right. exact Hx.
Qed.

(** X22: with the cursor on a slide, the progress bars are: full for every
    slide before the current one, pulsing for the current one alone, and
    empty for every later one. *)
Theorem progress_bars (storyContent : list StoryContentItem) (s : State) :
  inRange storyContent s ->
  progress storyContent s
  = replicate (Z.to_nat (currentIndex s)) w_full
    ++ [w_0_animate_pulse]
    ++ replicate (length storyContent - 1 - Z.to_nat (currentIndex s)) w_0.
Proof.
  intros [Hlo Hhi]. unfold progress.
  rewrite (imap_seq_0 storyContent (bar s)).
  set (i := Z.to_nat (currentIndex s)).
  assert (Hn : length storyContent = (i + S (length storyContent - 1 - i))%nat) by lia.
  rewrite Hn at 1. rewrite seq_app, fmap_app. simpl.
  f_equal; [|f_equal].
  - rewrite (fmap_constant (bar s) w_full), length_seq; [reflexivity|].
    intros j Hj. apply elem_of_seq in Hj. unfold bar.
    destruct (Z.of_nat j <? currentIndex s) eqn:E; [reflexivity|].
    apply Z.ltb_ge in E. lia.
  - unfold bar. rewrite (proj2 (Z.ltb_ge _ _)) by lia.
    rewrite (proj2 (Z.eqb_eq _ _)) by lia. reflexivity.
  - rewrite (fmap_constant (bar s) w_0), length_seq; [reflexivity|].
    intros j Hj. apply elem_of_seq in Hj. unfold bar.
    rewrite (proj2 (Z.ltb_ge _ _)) by lia.
    destruct (Z.of_nat j =? currentIndex s) eqn:E; [|reflexivity].
    apply Z.eqb_eq in E. lia.
Qed.

Lemma progress_bars_witness :
  progress sample (setCurrentIndex 1 initial)
  = replicate (Z.to_nat 1) w_full ++ [w_0_animate_pulse]
    ++ replicate (length sample - 1 - Z.to_nat 1) w_0.
Proof.
  apply (progress_bars sample (setCurrentIndex 1 initial)).
  unfold inRange. simpl. lia.
Defined.

End ProgressBars.

Section PreviewInstances.

Import StoryEditor StoryPreviewModal PreviewSession.

(** Offset 1000 on slides of height 800 is nearest to slide 1. *)
Lemma handleScroll_nearest_witness :
  currentIndex (fst (handleScroll sample (mkDom (Some 1000%Q) 800) initial)) = 1
  /\ snd (handleScroll sample (mkDom (Some 1000%Q) 800) initial) = []
  /\ handleScroll sample (mkDom (Some 1000%Q) 800)
       (fst (handleScroll sample (mkDom (Some 1000%Q) 800) initial))
     = (fst (handleScroll sample (mkDom (Some 1000%Q) 800) initial), []).
Proof.
  apply (handleScroll_nearest sample (mkDom (Some 1000%Q) 800) initial 1000%Q 1).
  - simpl. lia.
  - reflexivity.
  - simpl. lia.
  - simpl. discriminate.
  - simpl. reflexivity.
  - reflexivity.
Defined.

Lemma keyboard_then_scroll_witness :
  handleKeyDown sample (mkDom (Some 0%Q) 800) "ArrowDown" initial
  = (initial, [preventDefault; scrollTo (inject_Z (0 + 1) * inject_Z 800) smooth])
  /\ currentIndex
       (fst (handleScroll sample
               (mkDom (Some (inject_Z (0 + 1) * inject_Z 800)%Q) 800) initial))
     = 0 + 1
  /\ snd (handleScroll sample
            (mkDom (Some (inject_Z (0 + 1) * inject_Z 800)%Q) 800) initial) = [].
Proof.
  refine (proj1 (keyboard_then_scroll sample (mkDom (Some 0%Q) 800) initial 0%Q
                   _ eq_refl _) _).
  - simpl. lia.
  - unfold inRange. simpl. lia.
  - simpl. lia.
Defined.

(** The 50-unit swipe up on the last of three slides. *)
Lemma gesture_steps_witness :
  gesture sample (mkDom (Some 1600%Q) 800) 100%Q 50%Q (setCurrentIndex 2 initial)
  = ({| currentIndex := (2 + 1) mod 3; isTransitioning := false;
        touchStartY := 0%Q; touchEndY := 0%Q |},
     [scrollTo (inject_Z ((2 + 1) mod 3) * inject_Z 800) smooth]).
Proof.
  refine (proj1 (gesture_steps sample (mkDom (Some 1600%Q) 800)
                   (setCurrentIndex 2 initial) 100%Q 50%Q 1600%Q eq_refl _ _) _).
  - intros H. discriminate H.
  - unfold inRange. simpl. lia.
  - reflexivity.
Defined.

Lemma tap_is_a_swipe_witness :
  currentIndex (fst (tap sample (mkDom (Some 0%Q) 800) 400%Q initial))
  = JS.rem (0 + 1) 3.
Proof.
  refine (proj1 (tap_is_a_swipe sample (mkDom (Some 0%Q) 800) initial 400%Q 0%Q
                   eq_refl _) _).
  - reflexivity.
  - reflexivity.
Defined.

Lemma touch_from_top_is_ignored_witness :
  gesture sample (mkDom (Some 0%Q) 800) 0%Q 500%Q initial
  = (setTouchEndY 500%Q (setTouchStartY 0%Q initial), []).
Proof. apply touch_from_top_is_ignored. reflexivity. Defined.

Lemma scroll_request_follows_cursor_witness :
  (1600 == inject_Z (currentIndex
                       (fst (handleScroll sample (mkDom (Some 0%Q) 800) initial)))
           * inject_Z 800)%Q.
Proof.
  refine (proj1 (scroll_request_follows_cursor sample (mkDom (Some 0%Q) 800)
                   initial 1600%Q) _).
  simpl. left. reflexivity.
Defined.

End PreviewInstances.

(** * More about the arrows of the backup preview *)

Section ArrowClicks.

Import StoryEditor BackupPreviewModal BackupSession.

Lemma total_cons (p : nat * Callback) (l : list (nat * Callback)) :
  total (p :: l) = delta (snd p) + total l.
Proof. reflexivity. Qed.

Lemma fold_run_index (l : list (nat * Callback)) (st : State) :
  currentIndex (fold_left (fun s p => run (snd p) s) l st) = currentIndex st + total l.
Proof.
  revert st. induction l as [|[d cb] l IH]; intros st.
  - unfold total. simpl. lia.
  - change (fold_left (fun s p => run (snd p) s) ((d, cb) :: l) st)
      with (fold_left (fun s p => run (snd p) s) l (run cb st)).
    rewrite IH, total_cons. destruct cb; simpl; lia.
Qed.

Lemma total_split (P : nat * Callback -> Prop) `{!forall p, Decision (P p)}
    (l : list (nat * Callback)) :
  total l = total (filter P l) + total (filter (fun p => ~ P p) l).
Proof.
  induction l as [|p l IH]; [reflexivity|].
  rewrite !filter_cons. destruct (decide (P p)) as [Hp|Hp].
  - rewrite decide_False by tauto. rewrite !total_cons. lia.
  - rewrite decide_True by tauto. rewrite !total_cons. lia.
Qed.

Lemma advance_drains (k : nat) : forall w : Loop,
  (forall p, p ∈ timers w -> (1 <= k /\ fst p <= clock w + k)%nat) ->
  currentIndex (state (advance k w)) = currentIndex (state w) + pending w
  /\ timers (advance k w) = [].
Proof.
  induction k as [|k IH]; intros w H.
  - simpl. unfold pending, total. destruct (timers w) as [|p l].
    + simpl. split; [lia|reflexivity].
    + exfalso. destruct (H p) as [H1 _]; [left|lia].
  - simpl. destruct (IH (tick w)) as [Hi Ht].
    + intros p Hp. unfold tick in Hp. simpl in Hp.
      apply list_elem_of_filter in Hp as [Hlate Hp].
      destruct (H p Hp) as [_ Hdue]. simpl. lia.
    + split; [|exact Ht]. rewrite Hi. unfold pending, tick. simpl.
      rewrite fold_run_index.
      rewrite (total_split (fun p => (fst p <= S (clock w))%nat) (timers w)). lia.
Qed.

(** X23: once every pending timer is due, each of them has run: the index has
    moved by the number of pending steps forward minus the number of
    pending steps back, and no timer is left. *)
Theorem pending_steps_all_commit (k : nat) (w : Loop) :
  (forall p, p ∈ timers w -> (1 <= k /\ fst p <= clock w + k)%nat) ->
  currentIndex (state (advance k w)) = currentIndex (state w) + pending w
  /\ timers (advance k w) = [].
Proof. apply advance_drains. Qed.

Lemma pending_steps_all_commit_witness :
  currentIndex (state (advance 200 (nextSlide sample initial)))
  = currentIndex (state (nextSlide sample initial)) + pending (nextSlide sample initial)
  /\ timers (advance 200 (nextSlide sample initial)) = [].
Proof.
  apply pending_steps_all_commit.
  simpl. intros p Hp. apply list_elem_of_In in Hp. simpl in Hp.
  destruct Hp as [<-|[]]. unfold settle. simpl. lia.
Defined.

(** X24: the guard of the next arrow reads the index, which a click does not
    change until its timer runs: two clicks within one settle time both
    pass and both commit, so the index moves by two, and from the last
    slide but one it ends at n, past the last slide. *)
Theorem double_click_moves_two (storyContent : list StoryContentItem) (w : Loop) (k : nat) :
  timers w = [] -> (k < settle)%nat ->
  currentIndex (state w) < Z.of_nat (length storyContent) - 1 ->
  currentIndex
    (state (advance settle (nextSlide storyContent (advance k (nextSlide storyContent w)))))
  = currentIndex (state w) + 2.
Proof.
  intros Ht Hk Hi. apply Z.ltb_lt in Hi.
  set (w1 := nextSlide storyContent w).
  assert (Hw1 : w1 = setTimeout commitNext settle (setIsTransitioning true w)).
  { unfold w1, nextSlide. rewrite Hi. reflexivity. }
  assert (Ht1 : timers w1 = [((clock w + settle)%nat, commitNext)]).
  { rewrite Hw1. simpl. rewrite Ht. reflexivity. }
  assert (Hc1 : clock w1 = clock w) by (rewrite Hw1; reflexivity).
  assert (Hs1 : currentIndex (state w1) = currentIndex (state w))
    by (rewrite Hw1; reflexivity).
  rewrite (advance_pending k w1 _ commitNext Ht1) by (rewrite Hc1; lia).
  unfold nextSlide at 1. cbn [state]. rewrite Hs1, Hi.
  match goal with |- currentIndex (state (advance settle ?w2)) = _ =>
    destruct (advance_drains settle w2) as [Hd _] end.
  - simpl. intros p Hp. apply list_elem_of_In in Hp. simpl in Hp.
    rewrite Hc1. unfold settle in *. destruct Hp as [<-|[<-|[]]]; simpl; lia.
  - rewrite Hd. unfold pending, total. simpl. rewrite Hs1. lia.
Qed.

Lemma double_click_moves_two_witness :
  currentIndex
    (state (advance settle (nextSlide sample (advance 50 (nextSlide sample
       (selectSlide 1 initial))))))
  = 1 + 2.
Proof.
  apply (double_click_moves_two sample (selectSlide 1 initial) 50).
  - reflexivity.
  - unfold settle. lia.
  - simpl. lia.
Defined.

(** X25: one click at a time is safe: on a preview with no transition under
    way and the cursor on a slide, an arrow click followed by the settle
    time leaves no transition under way and the cursor on a slide. *)
Theorem single_click_stays_on_slide (storyContent : list StoryContentItem) (w : Loop) :
  timers w = [] ->
  0 <= currentIndex (state w) <= Z.of_nat (length storyContent) - 1 ->
  (timers (advance settle (nextSlide storyContent w)) = []
   /\ 0 <= currentIndex (state (advance settle (nextSlide storyContent w)))
        <= Z.of_nat (length storyContent) - 1)
  /\ (timers (advance settle (prevSlide w)) = []
      /\ 0 <= currentIndex (state (advance settle (prevSlide w)))
           <= Z.of_nat (length storyContent) - 1).
Proof.
  intros Ht Hi. split.
  - unfold nextSlide.
    destruct (currentIndex (state w) <? Z.of_nat (length storyContent) - 1) eqn:E.
    + apply Z.ltb_lt in E.
      destruct (advance_drains settle
                  (setTimeout commitNext settle (setIsTransitioning true w))) as [Hd Hn].
      * simpl. rewrite Ht. intros p Hp. apply list_elem_of_In in Hp.
        destruct Hp as [<-|[]]. unfold settle. simpl. lia.
      * split; [exact Hn|]. rewrite Hd. unfold pending, total. simpl. rewrite Ht. simpl. lia.
    + destruct (advance_drains settle w) as [Hd Hn].
      * rewrite Ht. intros p Hp. apply list_elem_of_In in Hp. destruct Hp.
      * split; [exact Hn|]. rewrite Hd. unfold pending, total. rewrite Ht. simpl. lia.
  - unfold prevSlide. destruct (0 <? currentIndex (state w)) eqn:E.
    + apply Z.ltb_lt in E.
      destruct (advance_drains settle
                  (setTimeout commitPrev settle (setIsTransitioning true w))) as [Hd Hn].
      * simpl. rewrite Ht. intros p Hp. apply list_elem_of_In in Hp.
        destruct Hp as [<-|[]]. unfold settle. simpl. lia.
      * split; [exact Hn|]. rewrite Hd. unfold pending, total. simpl. rewrite Ht. simpl. lia.
    + destruct (advance_drains settle w) as [Hd Hn].
      * rewrite Ht. intros p Hp. apply list_elem_of_In in Hp. destruct Hp.
      * split; [exact Hn|]. rewrite Hd. unfold pending, total. rewrite Ht. simpl. lia.
Qed.

Lemma single_click_stays_on_slide_witness :
  timers (advance settle (nextSlide sample initial)) = []
  /\ 0 <= currentIndex (state (advance settle (nextSlide sample initial)))
       <= Z.of_nat (length sample) - 1.
Proof.
  refine (proj1 (single_click_stays_on_slide sample initial eq_refl _)).
  simpl. lia.
Defined.

End ArrowClicks.
